(** * go-paginate: the page computer and the parameter resolver

    A shallow embedding of [paginate.go] (package [paginate] of
    github.com/eidng8/go-paginate) and the properties of its pagination
    arithmetic and link derivation.

    Layout: the Go runtime pieces the package computes with ([int],
    [float64], [math], [fmt]), the external collaborators ([net/url],
    [net/http], [gin], the [go-url] helpers, the [PQ] query interface), the
    package itself, and then the theorems. *)

From stdpp Require Import gmap strings list.
From Stdlib Require Import ZArith SpecFloat Ascii String DecimalString Lia.
From Stdlib Require DecimalPos DecimalZ.

Local Open Scope Z_scope.

(** ** Go's [int]

    [int] is the 64-bit two's complement integer of the usual targets; a value
    is a [Z] and every arithmetic operation wraps around. *)
Module GoInt.

Definition min_int : Z := - 2 ^ 63.
Definition max_int : Z := 2 ^ 63 - 1.

Definition is_int (z : Z) : Prop := min_int <= z <= max_int.

Definition wrap (z : Z) : Z := (z + 2 ^ 63) mod 2 ^ 64 - 2 ^ 63.

Definition add (a b : Z) : Z := wrap (a + b).
Definition sub (a b : Z) : Z := wrap (a - b).
Definition mul (a b : Z) : Z := wrap (a * b).

End GoInt.

(** ** Go's [float64]

    IEEE 754 binary64, on the Standard Library's [spec_float]: conversions
    from [int] and division round to nearest, ties to even. *)
Module GoFloat.

Definition prec : Z := 53.
Definition emax : Z := 1024.

(** [float64(n)] for an [int] [n]. *)
Definition of_int (n : Z) : spec_float := binary_normalize prec emax n 0 false.

(** [x / y]. *)
Definition div (x y : spec_float) : spec_float := SFdiv prec emax x y.

(** The IEEE 754 divideByZero exception: a finite non-zero dividend over a
    zero divisor. Go does not trap it; the quotient is an infinity. *)
Definition div_by_zero (x y : spec_float) : bool :=
  match x, y with
  | S754_finite _ _ _, S754_zero _ => true
  | _, _ => false
  end.

Definition ltb (x y : spec_float) : bool := SFltb x y.

(** The integer part of a float, rounded toward zero; [None] for the
    infinities and NaN. *)
Definition trunc (x : spec_float) : option Z :=
  match x with
  | S754_zero _ => Some 0
  | S754_finite s m e =>
      let a := if 0 <=? e then Z.pos m * 2 ^ e else Z.pos m / 2 ^ (- e) in
      Some (if s then - a else a)
  | S754_infinity _ | S754_nan => None
  end.

(** The language leaves [int(x)] implementation-dependent when [x] is not
    representable as an [int]; the conversion does not panic. The value an
    implementation picks is a parameter of the model. *)
Class Implementation := unrepresentable : spec_float -> Z.

(** [int(x)] for a [float64] [x]. *)
Definition to_int {impl : Implementation} (x : spec_float) : Z :=
  match trunc x with
  | Some z =>
      if (GoInt.min_int <=? z) && (z <=? GoInt.max_int) then z
      else GoInt.wrap (unrepresentable x)
  | None => GoInt.wrap (unrepresentable x)
  end.

(** amd64: the conversion instruction yields the "integer indefinite"
    value [0x8000000000000000]. *)
Definition amd64 : Implementation := fun _ => GoInt.min_int.

End GoFloat.

(** ** Package [math] *)
Module math.

(** [math.Min]: -Inf wins, then NaN, then the sign of zero, then [x < y]. *)
Definition Min (x y : spec_float) : spec_float :=
  match x, y with
  | S754_infinity true, _ | _, S754_infinity true => S754_infinity true
  | S754_nan, _ | _, S754_nan => S754_nan
  | S754_zero sx, S754_zero _ => if sx then x else y
  | _, _ => if GoFloat.ltb x y then x else y
  end.

(** [math.Ceil]: the least integer value greater than or equal to [x];
    zeros, infinities and NaN are returned as they are, and a negative
    fraction above -1 becomes the negative zero. *)
Definition Ceil (x : spec_float) : spec_float :=
  match x with
  | S754_finite s m e =>
      if 0 <=? e then x
      else
        let n := if s then Z.neg m else Z.pos m in
        let z := - ((- n) / 2 ^ (- e)) in
        if z =? 0 then S754_zero s else GoFloat.of_int z
  | _ => x
  end.

End math.

(** ** Package [fmt] *)
Module fmt.

(** [fmt.Sprintf("%d", n)]. *)
Definition Sprintf_d (n : Z) : string := NilZero.string_of_int (Z.to_int n).

End fmt.

(** ** Package [net/url]

    [url.URL] with all its fields, and the operations of the package that
    the link builder goes through. Query parsing, query encoding and the
    escaping of the user information, the host, the path and the fragment are
    the package's own and are taken as an interface. *)
Module url.

(** [url.Userinfo]. *)
Record Userinfo := { username : string; password : string; passwordSet : bool }.

(** [url.URL]; [User] is [None] for the nil pointer. *)
Record URL := {
  Scheme : string;
  Opaque : string;
  User : option Userinfo;
  Host : string;
  Path : string;
  RawPath : string;
  OmitHost : bool;
  ForceQuery : bool;
  RawQuery : string;
  Fragment : string;
  RawFragment : string;
}.

(** The assignments [u.Scheme = scheme], [u.Host = host],
    [u.RawQuery = raw_query] and [u.ForceQuery = force] on a copy. *)
Definition with_Scheme (scheme : string) (u : URL) : URL :=
  {| Scheme := scheme; Opaque := Opaque u; User := User u; Host := Host u;
     Path := Path u; RawPath := RawPath u; OmitHost := OmitHost u;
     ForceQuery := ForceQuery u; RawQuery := RawQuery u;
     Fragment := Fragment u; RawFragment := RawFragment u |}.

Definition with_Host (host : string) (u : URL) : URL :=
  {| Scheme := Scheme u; Opaque := Opaque u; User := User u; Host := host;
     Path := Path u; RawPath := RawPath u; OmitHost := OmitHost u;
     ForceQuery := ForceQuery u; RawQuery := RawQuery u;
     Fragment := Fragment u; RawFragment := RawFragment u |}.

Definition with_RawQuery (raw_query : string) (u : URL) : URL :=
  {| Scheme := Scheme u; Opaque := Opaque u; User := User u; Host := Host u;
     Path := Path u; RawPath := RawPath u; OmitHost := OmitHost u;
     ForceQuery := ForceQuery u; RawQuery := raw_query;
     Fragment := Fragment u; RawFragment := RawFragment u |}.

Definition with_ForceQuery (force : bool) (u : URL) : URL :=
  {| Scheme := Scheme u; Opaque := Opaque u; User := User u; Host := Host u;
     Path := Path u; RawPath := RawPath u; OmitHost := OmitHost u;
     ForceQuery := force; RawQuery := RawQuery u;
     Fragment := Fragment u; RawFragment := RawFragment u |}.

(** [url.Values]: each key has the list of its values. *)
Abbreviation Values := (gmap string (list string)).

(** [ParseQuery] and [v.Encode()]; [u.EscapedPath()] and
    [u.EscapedFragment()], as functions of the two fields each of them reads
    ([Path] and [RawPath], [Fragment] and [RawFragment]); the escaping of a
    host; and [ui.String()]. *)
Class Codec := {
  ParseQuery : string -> Values;
  Encode : Values -> string;
  EscapedPath : string -> string -> string;
  EscapedFragment : string -> string -> string;
  EscapedHost : string -> string;
  Userinfo_String : Userinfo -> string;
}.

(** [u.Query()]. *)
Definition Query {codec : Codec} (u : URL) : Values := ParseQuery (RawQuery u).

(** [v.Set(key, value)]. *)
Definition Set_ (key value : string) (v : Values) : Values := <[key := [value]]> v.

Definition first_byte_is_slash (s : string) : bool :=
  match s with
  | String c _ => if decide (c = "/"%char) then true else false
  | EmptyString => false
  end.

(** Does the first path segment hold a colon? *)
Fixpoint first_segment_has_colon (s : string) : bool :=
  match s with
  | EmptyString => false
  | String c r =>
      if decide (c = "/"%char) then false
      else if decide (c = ":"%char) then true
      else first_segment_has_colon r
  end.

Definition nonempty (s : string) : bool :=
  match s with EmptyString => false | String _ _ => true end.

(** [u.String()]. *)
Definition String_ {codec : Codec} (u : URL) : string :=
  let scheme := if nonempty (Scheme u) then Scheme u +:+ ":" else "" in
  let body :=
    if nonempty (Opaque u) then Opaque u
    else
      let authority :=
        if nonempty (Scheme u) || nonempty (Host u) || bool_decide (is_Some (User u)) then
          if OmitHost u && negb (nonempty (Host u)) && negb (bool_decide (is_Some (User u)))
          then ""
          else
            (if nonempty (Host u) || nonempty (Path u) || bool_decide (is_Some (User u))
             then "//" else "")
            +:+ (match User u with
                 | Some ui => Userinfo_String ui +:+ "@"
                 | None => ""
                 end)
            +:+ (if nonempty (Host u) then EscapedHost (Host u) else "")
        else "" in
      let path := EscapedPath (Path u) (RawPath u) in
      let sep :=
        if nonempty path && negb (first_byte_is_slash path) && nonempty (Host u)
        then "/" else "" in
      let dot :=
        if negb (nonempty (scheme +:+ authority +:+ sep)) && first_segment_has_colon path
        then "./" else "" in
      authority +:+ sep +:+ dot +:+ path in
  let query :=
    if ForceQuery u || nonempty (RawQuery u) then "?" +:+ RawQuery u else "" in
  let fragment :=
    if nonempty (Fragment u)
    then "#" +:+ EscapedFragment (Fragment u) (RawFragment u) else "" in
  scheme +:+ body +:+ query +:+ fragment.

End url.

(** ** Package [net/http] *)
Module http.

(** The fields of [http.Request] the links are built from: the URL of the
    request line, the host the request is for, and [TLS], which stands for
    [req.TLS != nil]. *)
Record Request := { URL : url.URL; Host : string; TLS : bool }.

End http.

(** ** Package [gin] *)
Module gin.

(** What the request holds for one bound form field. *)
Inductive Raw :=
| Absent
| Malformed
| Int (z : Z).

(** A [gin.Context]: the request, and what [ShouldBind] finds in it.
    [form_error] says that the form data of the request does not parse:
    [req.ParseForm()] returns an error (a pair of the query or of the body
    with a bad escape or a semicolon), and the binding returns it before it
    reads any field. [form_page] and [form_per_page] are the raw [page] and
    [per_page] values of the form. *)
Record Context := {
  Request : http.Request;
  form_error : bool;
  form_page : Raw;
  form_per_page : Raw;
}.

(** Binding one integer field: an absent key leaves the field as it is, a
    value that does not parse is an error. *)
Definition bind_int (r : Raw) (field : Z) : option Z :=
  match r with
  | Absent => Some field
  | Malformed => None
  | Int z => Some z
  end.

End gin.

(** ** Module [github.com/eidng8/go-url], imported as [eu] *)
Module eu.

(** Modelled from the spec: the helpers of [go-url] are not part of this
    repository. [RequestUrl] is the request's URL made absolute ("scheme/host/
    path resolution"). The specification leaves the resolution open; it is
    taken here as the package's own [CopyRequestUrl] has it: host from the
    request, scheme from TLS, every other field of the request's URL as it
    is. *)
Definition RequestUrl (req : http.Request) : url.URL :=
  url.with_Scheme (if http.TLS req then "https" else "http")
    (url.with_Host (http.Host req) (http.URL req)).

(** Modelled from the spec: [eu.RequestBaseUrl] is not part of this
    repository; it is "the request's base URL with no query string": neither
    a raw query nor the [?] of a forced empty one. *)
Definition RequestBaseUrl (req : http.Request) : url.URL :=
  url.with_ForceQuery false (url.with_RawQuery "" (RequestUrl req)).

(** Modelled from the spec: [eu.RequestUrlWithQueryParams] is not part of
    this repository; it is "an absolute URL identical to the original
    request's URL but with the [...] query parameters overwritten (all other
    query parameters preserved)". *)
Definition RequestUrlWithQueryParams {codec : url.Codec}
    (req : http.Request) (params : gmap string string) : url.URL :=
  let u := RequestUrl req in
  let query := ((fun v => [v]) <$> params) ∪ url.Query u in
  url.with_RawQuery (url.Encode query) u.


End eu.

(** * Package [paginate] *)

(** [ParamPage] and [ParamPerPage]: the query parameter names. *)
Definition ParamPage : string := "page".
Definition ParamPerPage : string := "per_page".

(** [PaginatedParams]: the page and per_page parameters. *)
Record PaginatedParams := { Page : Z; PerPage : Z }.

(** [pp.GetPage()] and [pp.GetPerPage()]. The methods share their names
    with the package's functions, so the receiver type is spelled out. *)
Definition PaginatedParams_GetPage (pp : PaginatedParams) : Z :=
  if Page pp <? 1 then 1 else Page pp.

Definition PaginatedParams_GetPerPage (pp : PaginatedParams) : Z :=
  if PerPage pp <? 1 then 10 else PerPage pp.

(** [gc.ShouldBind(&page)] on a [PaginatedParams]. The form binding first
    parses the form and returns the error of that, if any, with no field
    touched; then the fields are bound in declaration order and the first
    value that does not parse stops the binding with an error ([true]). The
    struct has no validation tag, so nothing else fails. *)
Definition ShouldBind (gc : gin.Context) (page : PaginatedParams) : PaginatedParams * bool :=
  if gin.form_error gc then (page, true)
  else
    match gin.bind_int (gin.form_page gc) (Page page) with
    | None => (page, true)
    | Some p =>
        let page := {| Page := p; PerPage := PerPage page |} in
        match gin.bind_int (gin.form_per_page gc) (PerPage page) with
        | None => (page, true)
        | Some pp => ({| Page := Page page; PerPage := pp |}, false)
        end
    end.

(** [GetPaginationParamsWithDefault]. *)
Definition GetPaginationParamsWithDefault
    (gc : gin.Context) (defaultPage defaultPerPage : Z) : PaginatedParams :=
  let page := {| Page := 0; PerPage := 0 |} in
  let '(page, err) := ShouldBind gc page in
  let page :=
    if err then {| Page := defaultPage; PerPage := defaultPerPage |} else page in
  let page :=
    if Page page <? 1 then {| Page := defaultPage; PerPage := PerPage page |} else page in
  let page :=
    if PerPage page <? 1 then {| Page := Page page; PerPage := defaultPerPage |} else page in
  page.

(** [GetPaginationParams]. *)
Definition GetPaginationParams (gc : gin.Context) : PaginatedParams :=
  GetPaginationParamsWithDefault gc 1 10.

(** [PaginatedList]. The struct's [PerPage] field is [PerPage'] here, the
    plain name being the field of [PaginatedParams]. *)
Record PaginatedList (V : Type) := {
  Total : Z;
  PerPage' : Z;
  CurrentPage : Z;
  LastPage : Z;
  FirstPageUrl : string;
  LastPageUrl : string;
  NextPageUrl : string;
  PrevPageUrl : string;
  Path : string;
  From : Z;
  To : Z;
  Data : list V;
}.

Arguments Total {V} _.
Arguments PerPage' {V} _.
Arguments CurrentPage {V} _.
Arguments LastPage {V} _.
Arguments FirstPageUrl {V} _.
Arguments LastPageUrl {V} _.
Arguments NextPageUrl {V} _.
Arguments PrevPageUrl {V} _.
Arguments Path {V} _.
Arguments From {V} _.
Arguments To {V} _.
Arguments Data {V} _.

(** [PQ]: the queries that can be paginated. [T] is the query value the
    methods act on: [Offset] and [Limit] update it in place, [Count] and
    [All] run it and give a value together with an error that may be nil.
    [Ctx] is [context.Context] and [Err] is [error]. *)
Class PQ (Ctx Err I T : Type) := {
  Offset : Z -> T -> T;
  Limit : Z -> T -> T;
  Count : Ctx -> T -> Z * option Err * T;
  All : Ctx -> T -> list I * option Err * T;
}.

(** The calls a function makes on its query, in order. *)
Inductive Call :=
| CallCount
| CallOffset (n : Z)
| CallLimit (n : Z)
| CallAll.

(** What a call of the package acts on: the query, the log of the calls made
    on it, and the floating-point divideByZero status flag. *)
Record World (T : Type) := {
  query : T;
  calls : list Call;
  divideByZero : bool;
}.

Arguments query {T} _.
Arguments calls {T} _.
Arguments divideByZero {T} _.

(** Computations that act on a [World]. *)
Definition M (T A : Type) : Type := World T -> A * World T.

Definition ret {T A} (a : A) : M T A := fun w => (a, w).

Definition bind {T A B} (m : M T A) (k : A -> M T B) : M T B :=
  fun w => let '(a, w') := m w in k a w'.

Notation "x <~ c1 ; c2" := (bind c1 (fun x => c2))
  (at level 20, c1 at level 100, c2 at level 200, only parsing).
Notation "' pat <~ c1 ; c2" := (bind c1 (fun pat => c2))
  (at level 20, pat pattern, c1 at level 100, c2 at level 200, only parsing).

(** What [GetPage] and [GetPageMapped] return: [Ok list] is
    [return list, nil] and [Fail err] is [return nil, err]. *)
Inductive Result (Err A : Type) :=
| Ok (list : A)
| Fail (err : Err).

Arguments Ok {Err A} _.
Arguments Fail {Err A} _.

Definition result_list {Err A} (r : Result Err A) : option A :=
  match r with Ok l => Some l | Fail _ => None end.

Definition result_err {Err A} (r : Result Err A) : option Err :=
  match r with Ok _ => None | Fail e => Some e end.

(** [PageQueryParams]. *)
Definition PageQueryParams (page perPage : Z) : gmap string string :=
  <[ParamPerPage := fmt.Sprintf_d perPage]> (<[ParamPage := fmt.Sprintf_d page]> ∅).

(** [UrlWithPage]. *)
Definition UrlWithPage {codec : url.Codec} (request : http.Request) (page perPage : Z) : url.URL :=
  eu.RequestUrlWithQueryParams request (PageQueryParams page perPage).


(** The link helpers of the first copy of the package: [CopyRequestUrl],
    [GetRequestBase], [SetPageQuery] and [NewPageUrl]. *)

(** [CopyRequestUrl]: a copy of the whole URL of the request, with the host
    of the request and the scheme of its transport. *)
Definition CopyRequestUrl (req : http.Request) : url.URL :=
  let u := http.URL req in
  let u := url.with_Host (http.Host req) u in
  let u := url.with_Scheme (if http.TLS req then "https" else "http") u in
  u.

(** [GetRequestBase]. *)
Definition GetRequestBase (req : http.Request) : url.URL :=
  let u := CopyRequestUrl req in
  let u := url.with_RawQuery "" u in
  u.

(** [SetPageQuery]. *)
Definition SetPageQuery {codec : url.Codec} (req : url.URL) (page perPage : Z) : url.Values :=
  let query := url.Query req in
  let query := url.Set_ "page" (fmt.Sprintf_d page) query in
  let query := url.Set_ "per_page" (fmt.Sprintf_d perPage) query in
  query.

(** [NewPageUrl]. *)
Definition NewPageUrl {codec : url.Codec} (req : http.Request) (page perPage : Z) : url.URL :=
  let nu := CopyRequestUrl req in
  let nu := url.with_RawQuery (url.Encode (SetPageQuery nu page perPage)) nu in
  nu.

Section Paginate.

Context {Ctx Err : Type}.
Context {codec : url.Codec} {impl : GoFloat.Implementation}.

Section Query.

Context {I T : Type} {pq : PQ Ctx Err I T}.

Definition query_Count (qc : Ctx) : M T (Z * option Err) :=
  fun w =>
    let '(n, err, q) := Count qc (query w) in
    ((n, err),
     {| query := q; calls := calls w ++ [CallCount]; divideByZero := divideByZero w |}).

Definition query_Offset (n : Z) : M T unit :=
  fun w =>
    (tt, {| query := Offset n (query w); calls := calls w ++ [CallOffset n];
            divideByZero := divideByZero w |}).

Definition query_Limit (n : Z) : M T unit :=
  fun w =>
    (tt, {| query := Limit n (query w); calls := calls w ++ [CallLimit n];
            divideByZero := divideByZero w |}).

Definition query_All (qc : Ctx) : M T (list I * option Err) :=
  fun w =>
    let '(rows, err, q) := All qc (query w) in
    ((rows, err),
     {| query := q; calls := calls w ++ [CallAll]; divideByZero := divideByZero w |}).

(** A [float64] division; a zero divisor under a finite non-zero dividend
    raises the divideByZero flag. *)
Definition float_div (x y : spec_float) : M T spec_float :=
  fun w =>
    (GoFloat.div x y,
     {| query := query w; calls := calls w;
        divideByZero := divideByZero w || GoFloat.div_by_zero x y |}).

(** [GetPage]. *)
Definition GetPage (gc : gin.Context) (qc : Ctx) (params : PaginatedParams)
    : M T (Result Err (PaginatedList I)) :=
  let fi := 1 in
  let ni := GoInt.add (Page params) 1 in
  let pi := GoInt.sub (Page params) 1 in
  let req := gin.Request gc in
  '(count, err) <~ query_Count qc ;
  match err with
  | Some err => ret (Fail err)
  | None =>
      if 0 =? count then
        ret (Ok {|
          Total := 0;
          PerPage' := PerPage params;
          CurrentPage := 1;
          LastPage := 1;
          FirstPageUrl := url.String_ (UrlWithPage req 1 (PerPage params));
          LastPageUrl := "";
          NextPageUrl := "";
          PrevPageUrl := "";
          Path := url.String_ (eu.RequestBaseUrl req);
          From := 0;
          To := 0;
          Data := [];
        |})
      else
        let from := GoInt.add (GoInt.mul pi (PerPage params)) 1 in
        let to :=
          GoFloat.to_int
            (math.Min (GoFloat.of_int (GoInt.mul (Page params) (PerPage params)))
                      (GoFloat.of_int count)) in
        'tt <~ query_Offset (GoInt.mul pi (PerPage params)) ;
        'tt <~ query_Limit (PerPage params) ;
        '(rows, err) <~ query_All qc ;
        match err with
        | Some err => ret (Fail err)
        | None =>
            quotient <~ float_div (GoFloat.of_int count)
                                  (GoFloat.of_int (PerPage params)) ;
            let li := GoFloat.to_int (math.Ceil quotient) in
            let first := url.String_ (UrlWithPage req fi (PerPage params)) in
            let '(li, last) :=
              if li <=? 1 then (1, "")
              else (li, url.String_ (UrlWithPage req li (PerPage params))) in
            let '(ni, next) :=
              if li <? ni then (li, "")
              else (ni, url.String_ (UrlWithPage req ni (PerPage params))) in
            let '(pi, prev) :=
              if pi <? 1 then (1, "")
              else (pi, url.String_ (UrlWithPage req pi (PerPage params))) in
            ret (Ok {|
              Total := count;
              PerPage' := PerPage params;
              CurrentPage := Page params;
              LastPage := li;
              FirstPageUrl := first;
              LastPageUrl := last;
              NextPageUrl := next;
              PrevPageUrl := prev;
              Path := url.String_ (eu.RequestBaseUrl req);
              From := from;
              To := to;
              Data := rows;
            |})
        end
  end.

(** [GetPageMapped]. *)
Definition GetPageMapped {V : Type} (gc : gin.Context) (qc : Ctx)
    (page : PaginatedParams) (mapper : I -> Z -> V)
    : M T (Result Err (PaginatedList V)) :=
  r <~ GetPage gc qc page ;
  match r with
  | Fail err => ret (Fail err)
  | Ok list =>
      let data := imap (fun i row => mapper row (Z.of_nat i)) (Data list) in
      ret (Ok {|
        Total := Total list;
        PerPage' := PerPage' list;
        CurrentPage := CurrentPage list;
        LastPage := LastPage list;
        FirstPageUrl := FirstPageUrl list;
        LastPageUrl := LastPageUrl list;
        NextPageUrl := NextPageUrl list;
        PrevPageUrl := PrevPageUrl list;
        Path := Path list;
        From := From list;
        To := To list;
        Data := data;
      |})
  end.

End Query.

End Paginate.

(** * The first copy of the package

    [paginate.go] holds the package twice. The first copy of [GetPage] builds
    its links with the package's own [NewPageUrl] and [GetRequestBase]; the
    second one, embedded above, goes through [go-url]. *)
Module Rev1.

Section Paginate.

Context {Ctx Err : Type}.
Context {codec : url.Codec} {impl : GoFloat.Implementation}.
Context {I T : Type} {pq : PQ Ctx Err I T}.

(** [GetPage]. *)
Definition GetPage (gc : gin.Context) (ctx : Ctx) (params : PaginatedParams)
    : M T (Result Err (PaginatedList I)) :=
  let fi := 1 in
  let ni := GoInt.add (Page params) 1 in
  let pi := GoInt.sub (Page params) 1 in
  let req := gin.Request gc in
  '(count, err) <~ query_Count ctx ;
  match err with
  | Some err => ret (Fail err)
  | None =>
      if 0 =? count then
        ret (Ok {|
          Total := 0;
          PerPage' := PerPage params;
          CurrentPage := 1;
          LastPage := 1;
          FirstPageUrl := url.String_ (NewPageUrl req 1 (PerPage params));
          LastPageUrl := "";
          NextPageUrl := "";
          PrevPageUrl := "";
          Path := url.String_ (GetRequestBase req);
          From := 0;
          To := 0;
          Data := [];
        |})
      else
        let from := GoInt.add (GoInt.mul pi (PerPage params)) 1 in
        let to :=
          GoFloat.to_int
            (math.Min (GoFloat.of_int (GoInt.mul (Page params) (PerPage params)))
                      (GoFloat.of_int count)) in
        'tt <~ query_Offset (GoInt.mul pi (PerPage params)) ;
        'tt <~ query_Limit (PerPage params) ;
        '(rows, err) <~ query_All ctx ;
        match err with
        | Some err => ret (Fail err)
        | None =>
            quotient <~ float_div (GoFloat.of_int count)
                                  (GoFloat.of_int (PerPage params)) ;
            let li := GoFloat.to_int (math.Ceil quotient) in
            let first := url.String_ (NewPageUrl req fi (PerPage params)) in
            let '(li, last) :=
              if li <=? 1 then (1, "")
              else (li, url.String_ (NewPageUrl req li (PerPage params))) in
            let '(ni, next) :=
              if li <? ni then (li, "")
              else (ni, url.String_ (NewPageUrl req ni (PerPage params))) in
            let '(pi, prev) :=
              if pi <? 1 then (1, "")
              else (pi, url.String_ (NewPageUrl req pi (PerPage params))) in
            ret (Ok {|
              Total := count;
              PerPage' := PerPage params;
              CurrentPage := Page params;
              LastPage := li;
              FirstPageUrl := first;
              LastPageUrl := last;
              NextPageUrl := next;
              PrevPageUrl := prev;
              Path := url.String_ (GetRequestBase req);
              From := from;
              To := to;
              Data := rows;
            |})
        end
  end.

End Paginate.

End Rev1.

(** * Fixtures

    A codec that follows [net/url] and a query over a numbered table, for
    running the package on concrete requests. *)
Module Fixtures.

Definition byte_in (lo hi : N) (c : ascii) : bool :=
  ((lo <=? N_of_ascii c) && (N_of_ascii c <=? hi))%N.

Definition alphanumeric (c : ascii) : bool :=
  byte_in 48 57 c || byte_in 65 90 c || byte_in 97 122 c.

Definition one_of (set : string) (c : ascii) : bool :=
  existsb (Ascii.eqb c) (list_ascii_of_string set).

Definition unreserved (c : ascii) : bool := alphanumeric c || one_of "-_.~" c.

Definition upperhex (n : N) : ascii :=
  nth (N.to_nat n) (list_ascii_of_string "0123456789ABCDEF") "0"%char.

Definition percent (c : ascii) : string :=
  String "%" (String (upperhex (N_of_ascii c / 16)) (String (upperhex (N_of_ascii c mod 16)) "")).

(** [escape(s, mode)]: [keep] tells the bytes the mode leaves alone;
    [plus] is the query-component mode, which writes a space as [+]. *)
Fixpoint escape (keep : ascii -> bool) (plus : bool) (s : string) : string :=
  match s with
  | EmptyString => EmptyString
  | String c r =>
      (if keep c then String c ""
       else if plus && Ascii.eqb c " " then "+"
       else percent c) +:+ escape keep plus r
  end.

Definition QueryEscape (s : string) : string := escape unreserved true s.

Definition unhex (c : ascii) : option N :=
  if byte_in 48 57 c then Some (N_of_ascii c - 48)%N
  else if byte_in 97 102 c then Some (N_of_ascii c - 97 + 10)%N
  else if byte_in 65 70 c then Some (N_of_ascii c - 65 + 10)%N
  else None.

(** [QueryUnescape]; [None] is the error. *)
Fixpoint QueryUnescape (s : string) : option string :=
  match s with
  | EmptyString => Some EmptyString
  | String c r =>
      if Ascii.eqb c "%" then
        match r with
        | String a (String b r') =>
            match unhex a, unhex b with
            | Some x, Some y =>
                String (ascii_of_N (16 * x + y)) <$> QueryUnescape r'
            | _, _ => None
            end
        | _ => None
        end
      else String (if Ascii.eqb c "+" then " "%char else c) <$> QueryUnescape r
  end.

(** [strings.Cut(s, sep)] for a one-byte separator. *)
Fixpoint cut (sep : ascii) (s : string) : string * string :=
  match s with
  | EmptyString => (EmptyString, EmptyString)
  | String c r =>
      if Ascii.eqb c sep then (EmptyString, r)
      else let '(a, b) := cut sep r in (String c a, b)
  end.

(** The pieces of [s] between the separators. *)
Fixpoint split (sep : ascii) (s : string) : list string :=
  match s with
  | EmptyString => [EmptyString]
  | String c r =>
      if Ascii.eqb c sep then EmptyString :: split sep r
      else
        match split sep r with
        | piece :: rest => String c piece :: rest
        | [] => [String c EmptyString]
        end
  end.

(** [url.ParseQuery]: pairs that hold a semicolon or do not unescape are
    dropped. *)
Definition ParseQuery (query : string) : url.Values :=
  foldl
    (fun (m : url.Values) pair =>
       if one_of pair ";" || negb (url.nonempty pair) then m
       else
         let '(key, value) := cut "=" pair in
         match QueryUnescape key, QueryUnescape value with
         | Some key, Some value => <[key := default [] (m !! key) ++ [value]]> m
         | _, _ => m
         end)
    ∅ (split "&" query).

(** The error of [url.ParseQuery]: a pair holds a semicolon, or its key or
    its value does not unescape. *)
Definition ParseQuery_error (query : string) : bool :=
  existsb
    (fun pair =>
       one_of pair ";"
       || (url.nonempty pair
           && let '(key, value) := cut "=" pair in
              negb (bool_decide (is_Some (QueryUnescape key))
                    && bool_decide (is_Some (QueryUnescape value)))))
    (split "&" query).

(** Insertion of a pair into a list sorted by key. *)
Fixpoint insert_by_key (p : string * list string) (l : list (string * list string))
    : list (string * list string) :=
  match l with
  | [] => [p]
  | q :: r => if String.leb p.1 q.1 then p :: l else q :: insert_by_key p r
  end.

(** [v.Encode()]: [key=value] pairs joined by [&], sorted by key. *)
Definition Encode (v : url.Values) : string :=
  foldl
    (fun buf '(key, values) =>
       foldl
         (fun buf value =>
            (if url.nonempty buf then buf +:+ "&" else buf)
            +:+ QueryEscape key +:+ "=" +:+ QueryEscape value)
         buf values)
    EmptyString (foldr insert_by_key [] (map_to_list v)).

(** [unescape(s, mode)] for a path or a fragment: as [QueryUnescape], but a
    [+] stays a [+]. *)
Fixpoint PathUnescape (s : string) : option string :=
  match s with
  | EmptyString => Some EmptyString
  | String c r =>
      if Ascii.eqb c "%" then
        match r with
        | String a (String b r') =>
            match unhex a, unhex b with
            | Some x, Some y =>
                String (ascii_of_N (16 * x + y)) <$> PathUnescape r'
            | _, _ => None
            end
        | _ => None
        end
      else String c <$> PathUnescape r
  end.

(** The bytes each mode leaves alone. *)
Definition path_kept (c : ascii) : bool := unreserved c || one_of "$&+,/:;=@" c.

Definition fragment_kept (c : ascii) : bool :=
  unreserved c || one_of "$&+,/:;=?@" c || one_of "!()*" c.

Definition userinfo_kept (c : ascii) : bool := unreserved c || one_of "$&+,;=" c.

(** The last byte of the host mode is the double quote. *)
Definition host_kept (c : ascii) : bool :=
  unreserved c || one_of "!$&'()*+,;=:[]<>" c || (N_of_ascii c =? 34)%N.

(** [validEncoded(s, mode)]. *)
Definition validEncoded (keep : ascii -> bool) (s : string) : bool :=
  forallb (fun c => one_of "!$&'()*+,;=:@[]%" c || keep c) (list_ascii_of_string s).

(** [u.EscapedPath()]: the raw path when it is a valid encoding of the
    path, and the escaped path otherwise. *)
Definition EscapedPath (path rawPath : string) : string :=
  if url.nonempty rawPath && validEncoded path_kept rawPath
     && bool_decide (PathUnescape rawPath = Some path)
  then rawPath
  else if bool_decide (path = "*") then "*"
  else escape path_kept false path.

(** [u.EscapedFragment()]. *)
Definition EscapedFragment (fragment rawFragment : string) : string :=
  if url.nonempty rawFragment && validEncoded fragment_kept rawFragment
     && bool_decide (PathUnescape rawFragment = Some fragment)
  then rawFragment
  else escape fragment_kept false fragment.

Definition EscapedHost (host : string) : string := escape host_kept false host.

(** [ui.String()]. *)
Definition Userinfo_String (ui : url.Userinfo) : string :=
  escape userinfo_kept false (url.username ui)
  +:+ (if url.passwordSet ui
       then ":" +:+ escape userinfo_kept false (url.password ui) else "").

Definition codec : url.Codec :=
  {| url.ParseQuery := ParseQuery; url.Encode := Encode;
     url.EscapedPath := EscapedPath; url.EscapedFragment := EscapedFragment;
     url.EscapedHost := EscapedHost; url.Userinfo_String := Userinfo_String |}.

(** A table of [table_size] rows, numbered from 1, and a query over it: the
    offset and limit set so far, and the errors [Count] and [All] answer
    with, if any. *)
Record Table := {
  table_size : Z;
  offset : Z;
  limit : Z;
  count_error : option string;
  all_error : option string;
}.

Definition table (size : Z) : Table :=
  {| table_size := size; offset := 0; limit := 0;
     count_error := None; all_error := None |}.

(** A table of 25 rows whose fetch fails. *)
Definition broken : Table :=
  {| table_size := 25; offset := 0; limit := 0;
     count_error := None; all_error := Some "connection lost" |}.

(** The rows [offset + 1 .. min (offset + limit) table_size]. *)
Definition window (t : Table) : list Z :=
  (fun i => offset t + 1 + Z.of_nat i)
    <$> seq 0 (Z.to_nat (Z.min (limit t) (table_size t - offset t))).

(** All the rows of a table of [size] rows, in order. *)
Definition rows (size : nat) : list Z := (fun i => 1 + Z.of_nat i) <$> seq 0 size.

Definition Table_PQ : PQ unit string Z Table :=
  {| Offset n t :=
       {| table_size := table_size t; offset := n; limit := limit t;
          count_error := count_error t; all_error := all_error t |};
     Limit n t :=
       {| table_size := table_size t; offset := offset t; limit := n;
          count_error := count_error t; all_error := all_error t |};
     Count _ t := (table_size t, count_error t, t);
     All _ t :=
       (match all_error t with Some _ => [] | None => window t end, all_error t, t) |}.

(** The URL of the request line [GET /items?raw_query]; a [?] with nothing
    after it sets [ForceQuery]. *)
Definition request_url (path raw_query : string) (force : bool) : url.URL :=
  {| url.Scheme := ""; url.Opaque := ""; url.User := None; url.Host := "";
     url.Path := path; url.RawPath := ""; url.OmitHost := false;
     url.ForceQuery := force; url.RawQuery := raw_query;
     url.Fragment := ""; url.RawFragment := "" |}.

(** A request for [/items] on [example.com], with the raw query given. *)
Definition request (raw_query : string) : http.Request :=
  {| http.URL := request_url "/items" raw_query false;
     http.Host := "example.com"; http.TLS := false |}.

(** The request [GET /items?] on [example.com]. *)
Definition request_forced : http.Request :=
  {| http.URL := request_url "/items" "" true;
     http.Host := "example.com"; http.TLS := false |}.

(** The request [GET ftp://other.example/items?raw_query], in absolute
    form, received by [example.com] over plain HTTP. *)
Definition request_absolute (raw_query : string) : http.Request :=
  {| http.URL :=
       url.with_Host "other.example"
         (url.with_Scheme "ftp" (request_url "/items" raw_query false));
     http.Host := "example.com"; http.TLS := false |}.

(** The context of a GET request: the form is the query of the URL, so the
    form does not parse exactly when the query does not. *)
Definition context (raw_query : string) (page per_page : gin.Raw) : gin.Context :=
  {| gin.Request := request raw_query; gin.form_error := ParseQuery_error raw_query;
     gin.form_page := page; gin.form_per_page := per_page |}.

(** The context of the request [GET /items?]. *)
Definition context_forced (page per_page : gin.Raw) : gin.Context :=
  {| gin.Request := request_forced; gin.form_error := false;
     gin.form_page := page; gin.form_per_page := per_page |}.

Definition world (t : Table) : World Table :=
  {| query := t; calls := []; divideByZero := false |}.

(** [GetPage] on a table, with the fixture codec and the amd64 conversion. *)
Definition run (raw_query : string) (t : Table) (page per_page : Z)
    : Result string (PaginatedList Z) * World Table :=
  GetPage (Err := string) (codec := codec) (impl := GoFloat.amd64) (pq := Table_PQ)
    (context raw_query (gin.Int page) (gin.Int per_page)) tt
    {| Page := page; PerPage := per_page |} (world t).

End Fixtures.

(** * Vocabulary of the properties *)

(** [link] is the request's absolute URL with the [page] and [per_page]
    query parameters set: scheme from TLS, host from the request, every
    other field of the request's URL as it is, and for the raw query the
    encoding of a query in which [page] and [per_page] have the one value
    given, in decimal, and every other parameter is as in the request. *)
Definition encodes_page {codec : url.Codec}
    (req : http.Request) (page perPage : Z) (link : string) : Prop :=
  exists values : url.Values,
    values !! ParamPage = Some [fmt.Sprintf_d page] /\
    values !! ParamPerPage = Some [fmt.Sprintf_d perPage] /\
    (forall key, key <> ParamPage -> key <> ParamPerPage ->
                 values !! key = url.Query (http.URL req) !! key) /\
    link = url.String_
             (url.with_RawQuery (url.Encode values)
                (url.with_Scheme (if http.TLS req then "https" else "http")
                   (url.with_Host (http.Host req) (http.URL req)))).

(** The mantissa of a positive integer below [2 ^ 53], shifted to 53 digits. *)
Definition mantissa (p : positive) : positive :=
  match (53 - Z.pos (digits2_pos p))%Z with
  | Z.pos k => Pos.iter xO p k
  | _ => p
  end.

(** [m * 2 ^ e] is the integer [n], with [m] of 53 digits. *)
Definition exact_repr (n : Z) (m : positive) (e : Z) : Prop :=
  Z.pos (digits2_pos m) = 53 /\ -52 <= e <= 1 /\ n * 2 ^ 52 = Z.pos m * 2 ^ (e + 52).

(** Where [num / den], a fraction in [0, 1), lies relative to one half. *)
Definition located (num den : Z) : location :=
  if num =? 0 then loc_Exact else loc_Inexact (2 * num ?= den).

(** [ceil(total / per_page)] on the integers, for a positive [per_page]. *)
Definition ceil_div (total per_page : Z) : Z := (total + per_page - 1) / per_page.

Section Values.

Context {codec : url.Codec} {impl : GoFloat.Implementation}.

(** [li] as first computed, and as returned after the floor at 1. *)
Definition last_index (count perPage : Z) : Z :=
  GoFloat.to_int (math.Ceil (GoFloat.div (GoFloat.of_int count) (GoFloat.of_int perPage))).

Definition last_page (count perPage : Z) : Z :=
  if last_index count perPage <=? 1 then 1 else last_index count perPage.

(** [to] as computed for a non-empty collection. *)
Definition to_index (page perPage count : Z) : Z :=
  GoFloat.to_int
    (math.Min (GoFloat.of_int (GoInt.mul page perPage)) (GoFloat.of_int count)).

(** The list of the empty-collection return. *)
Definition empty_list {V : Type} (req : http.Request) (params : PaginatedParams)
    : PaginatedList V :=
  {| Total := 0; PerPage' := PerPage params; CurrentPage := 1; LastPage := 1;
     FirstPageUrl := url.String_ (UrlWithPage req 1 (PerPage params));
     LastPageUrl := ""; NextPageUrl := ""; PrevPageUrl := "";
     Path := url.String_ (eu.RequestBaseUrl req);
     From := 0; To := 0; Data := [] |}.

(** The list of the final return, for the count and the rows obtained. *)
Definition page_list {V : Type} (req : http.Request) (params : PaginatedParams)
    (count : Z) (rows : list V) : PaginatedList V :=
  let ni := GoInt.add (Page params) 1 in
  let pi := GoInt.sub (Page params) 1 in
  let li := last_page count (PerPage params) in
  {| Total := count; PerPage' := PerPage params; CurrentPage := Page params;
     LastPage := li;
     FirstPageUrl := url.String_ (UrlWithPage req 1 (PerPage params));
     LastPageUrl :=
       if last_index count (PerPage params) <=? 1 then ""
       else url.String_ (UrlWithPage req li (PerPage params));
     NextPageUrl :=
       if li <? ni then "" else url.String_ (UrlWithPage req ni (PerPage params));
     PrevPageUrl :=
       if pi <? 1 then "" else url.String_ (UrlWithPage req pi (PerPage params));
     Path := url.String_ (eu.RequestBaseUrl req);
     From := GoInt.add (GoInt.mul pi (PerPage params)) 1;
     To := to_index (Page params) (PerPage params) count;
     Data := rows |}.

End Values.

(** A raw form value the resolver replaces: missing, unparsable, or below 1. *)
Definition replaced (r : gin.Raw) : Prop :=
  match r with
  | gin.Absent | gin.Malformed => True
  | gin.Int z => z < 1
  end.

(** The binding reports an error: the form of the request does not parse,
    or the [page] or the [per_page] value does not. *)
Definition bind_fails (gc : gin.Context) : Prop :=
  gin.form_error gc = true \/
  gin.form_page gc = gin.Malformed \/ gin.form_per_page gc = gin.Malformed.

(** The query as [GetPage] leaves it before the fetch. *)
Definition windowed {Ctx Err I T : Type} {pq : PQ Ctx Err I T}
    (params : PaginatedParams) (q : T) : T :=
  Limit (PerPage params)
    (Offset (GoInt.mul (GoInt.sub (Page params) 1) (PerPage params)) q).

(** The calls of a run that reaches the fetch. *)
Definition fetch_log (params : PaginatedParams) : list Call :=
  [CallCount;
   CallOffset (GoInt.mul (GoInt.sub (Page params) 1) (PerPage params));
   CallLimit (PerPage params);
   CallAll].

(** The world after a call has logged [log] and left the query as [q]. *)
Definition after {T : Type} (w : World T) (q : T) (log : list Call) (flag : bool) : World T :=
  {| query := q; calls := calls w ++ log; divideByZero := divideByZero w || flag |}.


(** The query parameters of two requests agree off [page] and [per_page]. *)
Definition same_but_page {codec : url.Codec} (req req' : http.Request) : Prop :=
  forall key, key <> ParamPage -> key <> ParamPerPage ->
    url.Query (http.URL req) !! key = url.Query (http.URL req') !! key.

(** What [CopyRequestUrl] keeps of the URL of a request, the raw query
    apart: every field but the scheme and the host, which it overwrites. *)
Definition kept_fields (u : url.URL) : url.URL :=
  url.with_RawQuery "" (url.with_Scheme "" (url.with_Host "" u)).

(** [link] is [path] followed by a raw query: after a [?] when [path] has
    none, directly when [path] ends with the [?] of a forced query ([force]);
    or [path] alone when the raw query is empty. *)
Definition extends_path (force : bool) (path link : string) : Prop :=
  exists raw_query : string,
    link = path +:+ (if force then raw_query
                     else if url.nonempty raw_query then "?" +:+ raw_query else "").

(** The calls [GetPage] makes on its query, given what the count answers. *)
Definition call_log {Err : Type} (params : PaginatedParams) (count : Z) (cerr : option Err)
    : list Call :=
  match cerr with
  | Some _ => [CallCount]
  | None => if count =? 0 then [CallCount] else fetch_log params
  end.

(** The rows of [all] a page holds: [PerPage] rows from the index
    [(Page - 1) * PerPage] on. *)
Definition page_rows {I : Type} (params : PaginatedParams) (all : list I) : list I :=
  take (Z.to_nat (PerPage params))
       (drop (Z.to_nat ((Page params - 1) * PerPage params)) all).

(** The rows of the pages 1 to [n], one page after the other. *)
Definition pages_rows {I : Type} (perPage : Z) (all : list I) (n : nat) : list I :=
  List.concat ((fun k : nat => page_rows {| Page := Z.of_nat k; PerPage := perPage |} all)
                 <$> seq 1 n).

(** * Properties *)

(** ** [int] *)

Lemma wrap_id (z : Z) : GoInt.is_int z -> GoInt.wrap z = z.
Proof.
  unfold GoInt.is_int, GoInt.min_int, GoInt.max_int, GoInt.wrap. intros Hz.
  rewrite Z.mod_small; lia.
Qed.

(** ** [float64] on the integers *)

Section Float64.

Import GoFloat.

Lemma digits2_pos_bounds (p : positive) :
  2 ^ (Z.pos (digits2_pos p) - 1) <= Z.pos p < 2 ^ Z.pos (digits2_pos p).
Proof.
  induction p as [p IH|p IH|]; simpl digits2_pos.
  - rewrite Pos2Z.inj_succ.
    replace (Z.succ (Z.pos (digits2_pos p)) - 1) with (Z.succ (Z.pos (digits2_pos p) - 1)) by lia.
    rewrite !Z.pow_succ_r by lia. lia.
  - rewrite Pos2Z.inj_succ.
    replace (Z.succ (Z.pos (digits2_pos p)) - 1) with (Z.succ (Z.pos (digits2_pos p) - 1)) by lia.
    rewrite !Z.pow_succ_r by lia. lia.
  - simpl. lia.
Qed.

Lemma digits2_pos_unique (p : positive) (d : Z) :
  2 ^ (d - 1) <= Z.pos p < 2 ^ d -> Z.pos (digits2_pos p) = d.
Proof.
  intros [Hlo Hhi].
  pose proof (digits2_pos_bounds p) as [Hlo' Hhi'].
  assert (0 < d).
  { destruct (Z.ltb_spec 0 d); [done|].
    destruct (Z.eq_dec d 0) as [->|]. { simpl in Hhi. lia. }
    rewrite Z.pow_neg_r in Hhi by lia. lia. }
  destruct (Z.lt_trichotomy (Z.pos (digits2_pos p)) d) as [Hlt|[Heq|Hgt]]; [|done|].
  - assert (2 ^ Z.pos (digits2_pos p) <= 2 ^ (d - 1)) by (apply Z.pow_le_mono_r; lia). lia.
  - assert (2 ^ d <= 2 ^ (Z.pos (digits2_pos p) - 1)) by (apply Z.pow_le_mono_r; lia). lia.
Qed.

Lemma shr_1_m (mrs : shr_record) :
  0 <= shr_m mrs -> shr_m (shr_1 mrs) = shr_m mrs / 2.
Proof.
  destruct mrs as [m r s]. cbn [shr_m shr_1]. intros Hm.
  destruct m as [|[p|p|]|p]; cbn [shr_m]; try lia; try reflexivity.
  - apply Z.div_unique with 1; lia.
  - apply Z.div_unique with 0; lia.
Qed.

Lemma iter_pos_shr_1_m (n : positive) (mrs : shr_record) :
  0 <= shr_m mrs -> shr_m (iter_pos shr_1 n mrs) = shr_m mrs / 2 ^ Z.pos n.
Proof.
  revert mrs. induction n as [n IH|n IH|]; intros mrs Hm; cbn [iter_pos].
  - assert (0 <= shr_m (shr_1 mrs)) by (rewrite shr_1_m by done; apply Z.div_pos; lia).
    assert (0 <= shr_m (iter_pos shr_1 n (shr_1 mrs))).
    { rewrite IH by done. apply Z.div_pos; lia. }
    rewrite !IH, shr_1_m by done.
    rewrite !Z.div_div by lia. f_equal.
    replace (Z.pos n~1) with (1 + Z.pos n + Z.pos n) by lia.
    rewrite !Z.pow_add_r by lia. lia.
  - assert (0 <= shr_m (iter_pos shr_1 n mrs)).
    { rewrite IH by done. apply Z.div_pos; lia. }
    rewrite !IH by done.
    rewrite !Z.div_div by lia. f_equal.
    replace (Z.pos n~0) with (Z.pos n + Z.pos n) by lia.
    rewrite !Z.pow_add_r by lia. lia.
  - rewrite shr_1_m by done. reflexivity.
Qed.

Lemma iter_xO_value (m k : positive) :
  Z.pos (Pos.iter xO m k) = Z.pos m * 2 ^ Z.pos k.
Proof.
  induction k as [|k IH] using Pos.peano_ind.
  - simpl. lia.
  - rewrite Pos.iter_succ, Pos2Z.inj_succ, Z.pow_succ_r by lia.
    change (Z.pos (Pos.iter xO m k)~0) with (2 * Z.pos (Pos.iter xO m k)). lia.
Qed.

Lemma iter_xO_digits (m k : positive) :
  digits2_pos (Pos.iter xO m k) = (digits2_pos m + k)%positive.
Proof.
  induction k as [|k IH] using Pos.peano_ind.
  - simpl. lia.
  - rewrite Pos.iter_succ. simpl. rewrite IH. lia.
Qed.

(** Rounding a 53-digit mantissa that is known exactly changes nothing. *)
Lemma binary_round_aux_exact (s : bool) (m : positive) (e : Z) :
  Z.pos (digits2_pos m) = 53 -> -1074 <= e <= 971 ->
  binary_round_aux prec emax s (Z.pos m) e loc_Exact = S754_finite s m e.
Proof.
  intros Hd He.
  unfold binary_round_aux, shr_fexp, fexp, emin, prec, emax.
  cbn [Zdigits2 shr_record_of_loc]. rewrite Hd.
  replace (Z.max (53 + e - 53) (3 - 1024 - 53) - e) with 0 by lia.
  cbn [shr shr_m loc_of_shr_record round_nearest_even Zdigits2 shr_record_of_loc].
  rewrite Hd.
  replace (Z.max (53 + e - 53) (3 - 1024 - 53) - e) with 0 by lia.
  cbn [shr shr_m].
  destruct (Z.leb_spec e (1024 - 53)); [reflexivity | lia].
Qed.

Lemma mantissa_digits (p : positive) :
  Z.pos p < 2 ^ 53 -> Z.pos (digits2_pos (mantissa p)) = 53.
Proof.
  intros Hp. unfold mantissa.
  assert (Z.pos (digits2_pos p) <= 53).
  { pose proof (digits2_pos_bounds p) as [Hlo _].
    destruct (Z.leb_spec (Z.pos (digits2_pos p)) 53); [done|].
    assert (2 ^ 53 <= 2 ^ (Z.pos (digits2_pos p) - 1)) by (apply Z.pow_le_mono_r; lia).
    lia. }
  destruct (53 - Z.pos (digits2_pos p)) as [|k|k] eqn:Hk; try lia.
  rewrite iter_xO_digits. lia.
Qed.

Lemma mantissa_value (p : positive) :
  Z.pos p < 2 ^ 53 ->
  Z.pos (mantissa p) = Z.pos p * 2 ^ (53 - Z.pos (digits2_pos p)).
Proof.
  intros Hp. unfold mantissa.
  destruct (53 - Z.pos (digits2_pos p)) as [|k|k] eqn:Hk.
  - simpl. lia.
  - apply iter_xO_value.
  - exfalso.
    pose proof (digits2_pos_bounds p) as [Hlo _].
    assert (2 ^ 53 <= 2 ^ (Z.pos (digits2_pos p) - 1)) by (apply Z.pow_le_mono_r; lia).
    lia.
Qed.

Lemma of_int_small (s : bool) (p : positive) :
  Z.pos p < 2 ^ 53 ->
  binary_round prec emax s p 0 = S754_finite s (mantissa p) (Z.pos (digits2_pos p) - 53).
Proof.
  intros Hp.
  pose proof (mantissa_digits p Hp) as Hd.
  assert (Z.pos (digits2_pos p) <= 53).
  { pose proof (digits2_pos_bounds p) as [Hlo _].
    destruct (Z.leb_spec (Z.pos (digits2_pos p)) 53); [done|].
    assert (2 ^ 53 <= 2 ^ (Z.pos (digits2_pos p) - 1)) by (apply Z.pow_le_mono_r; lia).
    lia. }
  unfold binary_round, shl_align, fexp, emin, prec, emax.
  replace (Z.max (Z.pos (digits2_pos p) + 0 - 53) (3 - 1024 - 53) - 0)
    with (- (53 - Z.pos (digits2_pos p))) by lia.
  replace (Z.max (Z.pos (digits2_pos p) + 0 - 53) (3 - 1024 - 53))
    with (Z.pos (digits2_pos p) - 53) by lia.
  unfold mantissa in *.
  destruct (53 - Z.pos (digits2_pos p)) as [|k|k] eqn:Hk; try lia; cbn [Z.opp].
  - replace (Z.pos (digits2_pos p) - 53) with 0 by lia.
    apply binary_round_aux_exact; [done|lia].
  - apply binary_round_aux_exact; [done|lia].
Qed.

Lemma binary_round_exact (s : bool) (p : positive) :
  Z.pos p <= 2 ^ 53 ->
  exists m e, binary_round prec emax s p 0 = S754_finite s m e /\ exact_repr (Z.pos p) m e.
Proof.
  intros Hp. destruct (Z.eq_dec (Z.pos p) (2 ^ 53)) as [Heq|Hne].
  - assert (p = 9007199254740992%positive) as -> by lia.
    exists 4503599627370496%positive, 1. split; [|repeat split; try lia]; destruct s; reflexivity.
  - assert (Z.pos p < 2 ^ 53) as Hlt by lia.
    exists (mantissa p), (Z.pos (digits2_pos p) - 53).
    split; [apply of_int_small; done|].
    split; [apply mantissa_digits; done|].
    pose proof (digits2_pos_bounds p) as [Hlo _].
    assert (Z.pos (digits2_pos p) <= 53).
    { destruct (Z.leb_spec (Z.pos (digits2_pos p)) 53); [done|].
      assert (2 ^ 53 <= 2 ^ (Z.pos (digits2_pos p) - 1)) by (apply Z.pow_le_mono_r; lia).
      lia. }
    split; [lia|].
    rewrite mantissa_value by done.
    rewrite <- Z.mul_assoc, <- Z.pow_add_r by lia.
    do 2 f_equal. lia.
Qed.

Lemma exact_repr_mantissa n m e :
  exact_repr n m e -> 2 ^ 52 <= Z.pos m < 2 ^ 53.
Proof.
  intros (Hd & _ & _). pose proof (digits2_pos_bounds m) as Hb.
  rewrite Hd in Hb. exact Hb.
Qed.

(** Below [2 ^ 53] the exponent is not positive. *)
Lemma exact_repr_below (c : Z) (mc : positive) (ec : Z) :
  exact_repr c mc ec -> c < 2 ^ 53 -> ec <= 0.
Proof.
  intros Hrc Hc.
  pose proof (exact_repr_mantissa _ _ _ Hrc) as Hmc.
  destruct Hrc as (_ & Hec & Hvc).
  destruct (Z.leb_spec ec 0); [done|].
  assert (2 ^ 53 <= 2 ^ (ec + 52)) by (apply Z.pow_le_mono_r; lia).
  assert (2 ^ 52 * 2 ^ 53 <= Z.pos mc * 2 ^ (ec + 52)) by (apply Z.mul_le_mono_nonneg; lia).
  lia.
Qed.

Lemma exact_repr_value n m e :
  exact_repr n m e ->
  n = if 0 <=? e then Z.pos m * 2 ^ e else Z.pos m / 2 ^ (- e).
Proof.
  intros (Hd & He & Hv).
  destruct (Z.leb_spec 0 e).
  - rewrite Z.pow_add_r in Hv by lia. nia.
  - assert (2 ^ 52 = 2 ^ (- e) * 2 ^ (e + 52)) as Hsplit.
    { rewrite <- Z.pow_add_r by lia. f_equal. lia. }
    assert (0 < 2 ^ (e + 52)) by (apply Z.pow_pos_nonneg; lia).
    assert (0 < 2 ^ (- e)) by (apply Z.pow_pos_nonneg; lia).
    assert (Z.pos m = n * 2 ^ (- e)) as -> by nia.
    rewrite Z.div_mul by lia. reflexivity.
Qed.

Lemma exact_repr_compare n1 m1 e1 n2 m2 e2 :
  exact_repr n1 m1 e1 -> exact_repr n2 m2 e2 ->
  match e1 ?= e2 with
  | Lt => Lt
  | Gt => Gt
  | Eq => Pos.compare_cont Eq m1 m2
  end = (n1 ?= n2).
Proof.
  intros H1 H2.
  pose proof (exact_repr_mantissa _ _ _ H1) as Hm1.
  pose proof (exact_repr_mantissa _ _ _ H2) as Hm2.
  destruct H1 as (_ & He1 & Hv1), H2 as (_ & He2 & Hv2).
  assert (0 < 2 ^ (e1 + 52)) by (apply Z.pow_pos_nonneg; lia).
  assert (0 < 2 ^ (e2 + 52)) by (apply Z.pow_pos_nonneg; lia).
  symmetry. destruct (Z.compare_spec e1 e2) as [->|Hlt|Hgt].
  - change (Pos.compare_cont Eq m1 m2) with (Z.pos m1 ?= Z.pos m2).
    destruct (Z.compare_spec (Z.pos m1) (Z.pos m2)) as [Heq|Hlt|Hgt].
    + apply Z.compare_eq_iff. nia.
    + apply Z.compare_lt_iff. nia.
    + apply Z.compare_gt_iff. nia.
  - apply Z.compare_lt_iff.
    assert (2 * 2 ^ (e1 + 52) <= 2 ^ (e2 + 52)).
    { rewrite <- Z.pow_succ_r by lia. apply Z.pow_le_mono_r; lia. }
    nia.
  - apply Z.compare_gt_iff.
    assert (2 * 2 ^ (e2 + 52) <= 2 ^ (e1 + 52)).
    { rewrite <- Z.pow_succ_r by lia. apply Z.pow_le_mono_r; lia. }
    nia.
Qed.

Lemma shr_spec (mrs : shr_record) (e n : Z) :
  0 <= shr_m mrs -> 0 <= n ->
  shr_m (shr mrs e n).1 = shr_m mrs / 2 ^ n /\ (shr mrs e n).2 = e + n.
Proof.
  intros Hm Hn. destruct n as [|k|k]; cbn [shr fst snd]; try lia.
  - rewrite Z.div_1_r. lia.
  - split; [apply iter_pos_shr_1_m; done | reflexivity].
Qed.

Lemma round_nearest_even_range (m : Z) (l : location) :
  m <= round_nearest_even m l <= m + 1.
Proof.
  destruct l as [|[| |]]; cbn [round_nearest_even]; try lia.
  destruct (Z.even m); lia.
Qed.

Lemma shr_record_of_loc_m (m : Z) (l : location) : shr_m (shr_record_of_loc m l) = m.
Proof. destruct l as [|[| |]]; reflexivity. Qed.

(** A mantissa of 53 digits, or [2 ^ 53] itself, is brought to 53 digits. *)
Lemma shr_fexp_normal (m e : Z) :
  2 ^ 52 <= m <= 2 ^ 53 -> -1074 <= e ->
  exists q e',
    shr_fexp prec emax m e loc_Exact = ({| shr_m := Z.pos q; shr_r := false; shr_s := false |}, e')
    /\ Z.pos (digits2_pos q) = 53 /\ e <= e' <= e + 1
    /\ m = Z.pos q * 2 ^ (e' - e).
Proof.
  intros Hm He. destruct m as [|p|p]; try lia.
  unfold shr_fexp, fexp, emin, prec, emax. cbn [Zdigits2 shr_record_of_loc].
  destruct (Z.eq_dec (Z.pos p) (2 ^ 53)) as [Heq|Hne].
  - assert (p = 9007199254740992%positive) as -> by lia.
    change (Z.pos (digits2_pos 9007199254740992)) with 54.
    replace (Z.max (54 + e - 53) (3 - 1024 - 53) - e) with 1 by lia.
    exists 4503599627370496%positive, (e + 1). cbn. repeat split; try lia.
    replace (e + 1 - e) with 1 by lia. lia.
  - rewrite (digits2_pos_unique p 53) by (change (53 - 1) with 52; lia).
    replace (Z.max (53 + e - 53) (3 - 1024 - 53) - e) with 0 by lia.
    exists p, e. cbn. repeat split; try lia.
    + apply digits2_pos_unique. change (53 - 1) with 52. lia.
    + rewrite Z.sub_diag. lia.
Qed.

(** After the first shift has left a mantissa of 53 digits, rounding gives a
    finite number (or overflows), whose mantissa has 53 digits again. *)
Lemma binary_round_aux_stage (s : bool) (mx ex : Z) (lx : location) mrs e1 :
  shr_fexp prec emax mx ex lx = (mrs, e1) ->
  2 ^ 52 <= shr_m mrs < 2 ^ 53 -> -1074 <= e1 ->
  exists q e,
    binary_round_aux prec emax s mx ex lx =
      (if e <=? 971 then S754_finite s q e else S754_infinity s)
    /\ Z.pos (digits2_pos q) = 53 /\ e1 <= e <= e1 + 1
    /\ round_nearest_even (shr_m mrs) (loc_of_shr_record mrs) = Z.pos q * 2 ^ (e - e1).
Proof.
  intros Hshr Hm He1. unfold binary_round_aux. rewrite Hshr.
  pose proof (round_nearest_even_range (shr_m mrs) (loc_of_shr_record mrs)) as Hr.
  destruct (shr_fexp_normal (round_nearest_even (shr_m mrs) (loc_of_shr_record mrs)) e1)
    as (q & e & -> & Hd & He & Hv); [lia|lia|].
  exists q, e. cbn [shr_m]. repeat split; try done; lia.
Qed.

Lemma binary_round_aux_normal (s : bool) (p : positive) (e : Z) (l : location) :
  53 <= Z.pos (digits2_pos p) -> -1074 <= e ->
  exists q e',
    binary_round_aux prec emax s (Z.pos p) e l =
      (if e' <=? 971 then S754_finite s q e' else S754_infinity s)
    /\ Z.pos (digits2_pos q) = 53
    /\ e + Z.pos (digits2_pos p) - 53 <= e' <= e + Z.pos (digits2_pos p) - 53 + 1.
Proof.
  intros Hd He.
  destruct (shr_fexp prec emax (Z.pos p) e l) as [mrs e1] eqn:Hshr.
  pose proof Hshr as Hshr'.
  unfold shr_fexp, fexp, emin, prec, emax in Hshr'. cbn [Zdigits2] in Hshr'.
  replace (Z.max (Z.pos (digits2_pos p) + e - 53) (3 - 1024 - 53) - e)
    with (Z.pos (digits2_pos p) - 53) in Hshr' by lia.
  destruct (shr_spec (shr_record_of_loc (Z.pos p) l) e (Z.pos (digits2_pos p) - 53))
    as [Hm He1]; [rewrite shr_record_of_loc_m; lia | lia |].
  rewrite Hshr', shr_record_of_loc_m in Hm. rewrite Hshr' in He1. cbn [fst snd] in Hm, He1.
  pose proof (digits2_pos_bounds p) as [Hlo Hhi].
  set (k := Z.pos (digits2_pos p) - 53) in *.
  assert (0 < 2 ^ k) by (apply Z.pow_pos_nonneg; lia).
  assert (2 ^ (Z.pos (digits2_pos p) - 1) = 2 ^ 52 * 2 ^ k) as Hlo'.
  { rewrite <- Z.pow_add_r by lia. f_equal. lia. }
  assert (2 ^ Z.pos (digits2_pos p) = 2 ^ 53 * 2 ^ k) as Hhi'.
  { rewrite <- Z.pow_add_r by lia. f_equal. lia. }
  destruct (binary_round_aux_stage s (Z.pos p) e l mrs e1 Hshr) as (q & e' & Heq & Hq & He' & _).
  - rewrite Hm. split.
    + apply Z.div_le_lower_bound; lia.
    + apply Z.div_lt_upper_bound; lia.
  - lia.
  - exists q, e'. repeat split; try done; lia.
Qed.

Lemma binary_round_int (s : bool) (p : positive) :
  exists q e,
    binary_round prec emax s p 0 =
      (if e <=? 971 then S754_finite s q e else S754_infinity s)
    /\ Z.pos (digits2_pos q) = 53
    /\ Z.pos (digits2_pos p) - 53 <= e <= Z.pos (digits2_pos p) - 52.
Proof.
  destruct (Z.ltb_spec (Z.pos p) (2 ^ 53)) as [Hlt|Hge].
  - exists (mantissa p), (Z.pos (digits2_pos p) - 53).
    rewrite of_int_small by done.
    assert (Z.pos (digits2_pos p) <= 53).
    { rewrite <- (mantissa_digits p Hlt). unfold mantissa.
      destruct (53 - Z.pos (digits2_pos p)) as [|k|k]; try lia.
      rewrite iter_xO_digits. lia. }
    destruct (Z.leb_spec (Z.pos (digits2_pos p) - 53) 971); [|lia].
    repeat split; try lia. apply mantissa_digits; done.
  - assert (54 <= Z.pos (digits2_pos p)) as Hd.
    { pose proof (digits2_pos_bounds p) as [_ Hhi].
      destruct (Z.leb_spec 54 (Z.pos (digits2_pos p))); [done|].
      assert (2 ^ Z.pos (digits2_pos p) <= 2 ^ 53) by (apply Z.pow_le_mono_r; lia).
      lia. }
    unfold binary_round, shl_align, fexp, emin.
    replace (Z.max (Z.pos (digits2_pos p) + 0 - prec) (3 - emax - prec))
      with (Z.pos (digits2_pos p) - 53) by (unfold prec, emax; lia).
    destruct (Z.pos (digits2_pos p) - 53 - 0) as [|k|k] eqn:Hk; try lia.
    destruct (binary_round_aux_normal s p 0 loc_Exact) as (q & e & Heq & Hq & He); [lia|lia|].
    exists q, e. repeat split; try done; lia.
Qed.

Lemma of_int_nonzero (n : Z) (s : bool) : n <> 0 -> of_int n <> S754_zero s.
Proof.
  intros Hn. unfold of_int, binary_normalize.
  destruct n as [|p|p]; [done| |];
    [destruct (binary_round_int false p) as (q & e & -> & _)
    |destruct (binary_round_int true p) as (q & e & -> & _)];
    destruct (e <=? 971); discriminate.
Qed.

Lemma of_int_finite (n : Z) :
  n <> 0 -> - 2 ^ 64 < n < 2 ^ 64 ->
  exists m e,
    of_int n = S754_finite (n <? 0) m e /\ Z.pos (digits2_pos m) = 53 /\ -52 <= e <= 12.
Proof.
  intros Hn Hr. unfold of_int, binary_normalize.
  destruct n as [|p|p]; [done| |].
  - destruct (binary_round_int false p) as (q & e & -> & Hq & He).
    pose proof (digits2_pos_bounds p) as [Hlo _].
    pose proof (Pos2Z.is_pos (digits2_pos p)).
    assert (Z.pos (digits2_pos p) <= 64).
    { destruct (Z.leb_spec (Z.pos (digits2_pos p)) 64); [done|].
      assert (2 ^ 64 <= 2 ^ (Z.pos (digits2_pos p) - 1)) by (apply Z.pow_le_mono_r; lia).
      lia. }
    destruct (Z.leb_spec e 971); [|lia].
    exists q, e. repeat split; try done; lia.
  - destruct (binary_round_int true p) as (q & e & -> & Hq & He).
    pose proof (digits2_pos_bounds p) as [Hlo _].
    pose proof (Pos2Z.is_pos (digits2_pos p)).
    assert (Z.pos (digits2_pos p) <= 64).
    { destruct (Z.leb_spec (Z.pos (digits2_pos p)) 64); [done|].
      assert (2 ^ 64 <= 2 ^ (Z.pos (digits2_pos p) - 1)) by (apply Z.pow_le_mono_r; lia).
      lia. }
    destruct (Z.leb_spec e 971); [|lia].
    exists q, e. repeat split; try done; lia.
Qed.

Lemma of_int_exact (p : positive) :
  Z.pos p <= 2 ^ 53 ->
  exists m e, of_int (Z.pos p) = S754_finite false m e /\ exact_repr (Z.pos p) m e.
Proof. intros Hp. apply (binary_round_exact false p Hp). Qed.

(** From [2 ^ 53] on the conversion may round, and the exponent is positive. *)
Lemma of_int_large (p : positive) :
  2 ^ 53 <= Z.pos p < 2 ^ 64 ->
  exists m e,
    of_int (Z.pos p) = S754_finite false m e /\ Z.pos (digits2_pos m) = 53 /\ 1 <= e <= 12.
Proof.
  intros Hp. unfold of_int, binary_normalize.
  destruct (binary_round_int false p) as (q & e & -> & Hq & He).
  pose proof (digits2_pos_bounds p) as [Hlo Hhi].
  assert (54 <= Z.pos (digits2_pos p) <= 64).
  { split.
    - destruct (Z.leb_spec 54 (Z.pos (digits2_pos p))); [done|].
      assert (2 ^ Z.pos (digits2_pos p) <= 2 ^ 53) by (apply Z.pow_le_mono_r; lia).
      lia.
    - destruct (Z.leb_spec (Z.pos (digits2_pos p)) 64); [done|].
      assert (2 ^ 64 <= 2 ^ (Z.pos (digits2_pos p) - 1)) by (apply Z.pow_le_mono_r; lia).
      lia. }
  destruct (Z.leb_spec e 971); [|lia].
  exists q, e. repeat split; try done; lia.
Qed.

Lemma trunc_exact (s : bool) (n : Z) (m : positive) (e : Z) :
  exact_repr n m e -> trunc (S754_finite s m e) = Some (if s then - n else n).
Proof.
  intros Hr. cbn [trunc]. rewrite <- (exact_repr_value n m e Hr). reflexivity.
Qed.

Section Conversion.

Context {impl : Implementation}.

(** An integer a [float64] holds exactly comes back from the conversion. *)
Lemma to_int_of_int (n : Z) : 0 <= n <= 2 ^ 53 -> to_int (of_int n) = n.
Proof.
  intros Hn. destruct n as [|p|p]; [reflexivity| |lia].
  destruct (of_int_exact p) as (m & e & -> & Hr); [lia|].
  unfold to_int. rewrite (trunc_exact false _ _ _ Hr).
  unfold GoInt.min_int, GoInt.max_int.
  destruct (Z.leb_spec (- 2 ^ 63) (Z.pos p)); [|lia].
  destruct (Z.leb_spec (Z.pos p) (2 ^ 63 - 1)); [reflexivity|lia].
Qed.

End Conversion.

Lemma ltb_of_int (a b : Z) :
  0 < a <= 2 ^ 53 -> 0 < b <= 2 ^ 53 -> ltb (of_int a) (of_int b) = (a <? b).
Proof.
  intros Ha Hb. destruct a as [|a|a]; try lia. destruct b as [|b|b]; try lia.
  destruct (of_int_exact a) as (ma & ea & -> & Hra); [lia|].
  destruct (of_int_exact b) as (mb & eb & -> & Hrb); [lia|].
  unfold ltb, SFltb. cbn [SFcompare].
  rewrite (exact_repr_compare _ _ _ _ _ _ Hra Hrb).
  unfold Z.ltb. reflexivity.
Qed.

(** [math.Min] on integers a [float64] holds exactly. *)
Lemma Min_of_int (a b : Z) :
  0 < a <= 2 ^ 53 -> 0 < b <= 2 ^ 53 ->
  math.Min (of_int a) (of_int b) = of_int (Z.min a b).
Proof.
  intros Ha Hb. pose proof (ltb_of_int a b Ha Hb) as Hlt.
  destruct a as [|a|a]; try lia. destruct b as [|b|b]; try lia.
  destruct (of_int_exact a) as (ma & ea & Hea & _); [lia|].
  destruct (of_int_exact b) as (mb & eb & Heb & _); [lia|].
  rewrite Hea, Heb in Hlt |- *. cbn [math.Min]. rewrite Hlt.
  destruct (Z.ltb_spec (Z.pos a) (Z.pos b)).
  - rewrite Z.min_l by lia. symmetry; exact Hea.
  - rewrite Z.min_r by lia. symmetry; exact Heb.
Qed.

(** A first operand from [2 ^ 53] on may be rounded, and stays above a
    second one below [2 ^ 53]. *)
Lemma Min_of_int_large (a b : Z) :
  2 ^ 53 <= a < 2 ^ 64 -> 0 < b < 2 ^ 53 ->
  math.Min (of_int a) (of_int b) = of_int b.
Proof.
  intros Ha Hb. destruct a as [|a|a]; try lia. destruct b as [|b|b]; try lia.
  destruct (of_int_large a Ha) as (ma & ea & -> & _ & Hea).
  destruct (of_int_exact b) as (mb & eb & -> & Hrb); [lia|].
  pose proof (exact_repr_below _ _ _ Hrb ltac:(lia)) as Heb.
  cbn [math.Min]. unfold ltb, SFltb. cbn [SFcompare].
  rewrite (proj2 (Z.compare_gt_iff ea eb)) by lia. reflexivity.
Qed.

Lemma new_location_spec (d r : Z) :
  0 < d -> 0 <= r < d ->
  new_location d r = if r =? 0 then loc_Exact else loc_Inexact (2 * r ?= d).
Proof.
  intros Hd Hr. unfold new_location.
  destruct (Z.even d) eqn:Hev; unfold new_location_even, new_location_odd;
    destruct (Z.eqb_spec r 0) as [->|Hne]; try reflexivity.
  f_equal.
  assert (Z.odd d = true) as Hodd by (rewrite <- Z.negb_even, Hev; reflexivity).
  apply Z.odd_spec in Hodd as [k ->].
  destruct (Z.compare_spec (2 * r + 1) (2 * k + 1)), (Z.compare_spec (2 * r) (2 * k + 1));
    try reflexivity; lia.
Qed.

(** The quotient of two 53-digit mantissas, before rounding. *)
Lemma SFdiv_core_binary_spec (mc mp : positive) (ec ep : Z) :
  Z.pos (digits2_pos mc) = 53 -> Z.pos (digits2_pos mp) = 53 ->
  -1000 <= ec - ep ->
  exists Q R,
    SFdiv_core_binary prec emax (Z.pos mc) ec (Z.pos mp) ep =
      (Q, ec - ep - 53, if R =? 0 then loc_Exact else loc_Inexact (2 * R ?= Z.pos mp))
    /\ Z.pos mc * 2 ^ 53 = Z.pos mp * Q + R /\ 0 <= R < Z.pos mp
    /\ 2 ^ 52 <= Q < 2 ^ 54.
Proof.
  intros Hdc Hdp He.
  pose proof (digits2_pos_bounds mc) as Hbc. rewrite Hdc in Hbc.
  pose proof (digits2_pos_bounds mp) as Hbp. rewrite Hdp in Hbp.
  change (53 - 1) with 52 in *.
  unfold SFdiv_core_binary, fexp, emin, prec, emax. cbn [Zdigits2].
  rewrite Hdc, Hdp.
  replace (Z.min (Z.max (53 + ec - (53 + ep) - 53) (3 - 1024 - 53)) (ec - ep))
    with (ec - ep - 53) by lia.
  replace (ec - ep - (ec - ep - 53)) with 53 by lia.
  rewrite Z.shiftl_mul_pow2 by lia.
  pose proof (Z_div_mod (Z.pos mc * 2 ^ 53) (Z.pos mp) ltac:(lia)) as Hdm.
  destruct (Z.div_eucl (Z.pos mc * 2 ^ 53) (Z.pos mp)) as [Q R].
  destruct Hdm as [Heq HR].
  exists Q, R. rewrite new_location_spec by lia.
  repeat split; try lia; nia.
Qed.

Lemma loc_of_shr_record_of_loc (m : Z) (l : location) :
  loc_of_shr_record (shr_record_of_loc m l) = l.
Proof. destruct l as [|[| |]]; reflexivity. Qed.

(** Rounding to nearest: up by at most one, not at all on an exact value,
    and down only from the lower half. *)
Lemma round_nearest_even_located (m num den : Z) :
  0 <= num < den ->
  let m' := round_nearest_even m (located num den) in
  m <= m' <= m + 1 /\ (num = 0 -> m' = m) /\ (m' = m -> 2 * num <= den).
Proof.
  intros Hn. unfold located.
  destruct (Z.eqb_spec num 0) as [->|Hne]; cbn [round_nearest_even].
  - repeat split; lia.
  - destruct (Z.compare_spec (2 * num) den); cbn [round_nearest_even];
      [destruct (Z.even m)|..]; repeat split; lia.
Qed.

(** One shift to the right halves the mantissa and keeps the location. *)
Lemma shr_1_located (Q : positive) (num den : Z) :
  0 <= num < den ->
  let mrs := shr_1 (shr_record_of_loc (Z.pos Q) (located num den)) in
  shr_m mrs = Z.pos Q / 2 /\
  loc_of_shr_record mrs = located (Z.pos Q mod 2 * den + num) (2 * den).
Proof.
  intros Hn. cbn zeta. split.
  - rewrite shr_1_m by (rewrite shr_record_of_loc_m; lia).
    rewrite shr_record_of_loc_m. reflexivity.
  - unfold located.
    destruct (Z.eqb_spec num 0) as [->|Hne].
    + destruct Q as [Q|Q|]; cbn [shr_record_of_loc shr_1 loc_of_shr_record orb].
      * replace (Z.pos Q~1 mod 2) with 1 by (apply (Z.mod_unique _ _ (Z.pos Q)); lia).
        destruct (Z.eqb_spec (1 * den + 0) 0); [lia|].
        rewrite (proj2 (Z.compare_eq_iff _ _)) by lia. reflexivity.
      * replace (Z.pos Q~0 mod 2) with 0 by (apply (Z.mod_unique _ _ (Z.pos Q)); lia).
        reflexivity.
      * change (1 mod 2) with 1.
        destruct (Z.eqb_spec (1 * den + 0) 0); [lia|].
        rewrite (proj2 (Z.compare_eq_iff _ _)) by lia. reflexivity.
    + assert (forall c, loc_of_shr_record (shr_1 (shr_record_of_loc (Z.pos Q) (loc_Inexact c)))
                        = loc_Inexact (if Z.pos Q mod 2 =? 0 then Lt else Gt)) as ->.
      { intros c. destruct Q as [Q|Q|].
        - replace (Z.pos Q~1 mod 2) with 1 by (apply (Z.mod_unique _ _ (Z.pos Q)); lia).
          destruct c; reflexivity.
        - replace (Z.pos Q~0 mod 2) with 0 by (apply (Z.mod_unique _ _ (Z.pos Q)); lia).
          destruct c; reflexivity.
        - destruct c; reflexivity. }
      pose proof (Z.mod_pos_bound (Z.pos Q) 2 ltac:(lia)) as Hb.
      destruct (Z.eqb_spec (Z.pos Q mod 2 * den + num) 0) as [Hz|_]; [nia|].
      f_equal. destruct (Z.eqb_spec (Z.pos Q mod 2) 0) as [->|Hodd].
      * symmetry. apply Z.compare_lt_iff. lia.
      * symmetry. apply Z.compare_gt_iff. assert (Z.pos Q mod 2 = 1) as -> by lia. lia.
Qed.

(** The quotient of two positive numbers with 53-digit mantissas: [m1] is
    the quotient of the mantissas cut to 53 digits ([w] is 2 when one more
    shift is needed), [m2] is [m1] rounded, and [q * 2 ^ e] is [m2] on the
    exponent [ec - ep - 53 + (w - 1)]. *)
Lemma SFdiv_round (mc mp : positive) (ec ep : Z) :
  Z.pos (digits2_pos mc) = 53 -> Z.pos (digits2_pos mp) = 53 ->
  -1000 <= ec - ep <= 900 ->
  exists q e w m1 m2,
    div (S754_finite false mc ec) (S754_finite false mp ep) = S754_finite false q e
    /\ Z.pos (digits2_pos q) = 53
    /\ (w = 1 \/ w = 2)
    /\ ec - ep - 53 + (w - 1) <= e <= ec - ep - 53 + (w - 1) + 1
    /\ m2 = Z.pos q * 2 ^ (e - (ec - ep - 53 + (w - 1)))
    /\ 2 ^ 52 <= m1 < 2 ^ 53
    /\ m1 * (Z.pos mp * w) <= Z.pos mc * 2 ^ 53 < (m1 + 1) * (Z.pos mp * w)
    /\ m1 <= m2 <= m1 + 1
    /\ (Z.pos mc * 2 ^ 53 = m1 * (Z.pos mp * w) -> m2 = m1)
    /\ (m2 = m1 -> 2 * (Z.pos mc * 2 ^ 53 - m1 * (Z.pos mp * w)) <= Z.pos mp * w).
Proof.
  intros Hdc Hdp He.
  destruct (SFdiv_core_binary_spec mc mp ec ep Hdc Hdp ltac:(lia))
    as (Q & R & Hcore & Hdiv & HR & HQ).
  unfold div. cbn [SFdiv xorb]. rewrite Hcore. fold (located R (Z.pos mp)).
  set (e0 := ec - ep - 53) in *.
  destruct Q as [|Q|Q]; try lia.
  destruct (Z.ltb_spec (Z.pos Q) (2 ^ 53)) as [Hlt|Hge].
  - (* 53 digits: no shift *)
    assert (shr_fexp prec emax (Z.pos Q) e0 (located R (Z.pos mp))
            = (shr_record_of_loc (Z.pos Q) (located R (Z.pos mp)), e0)) as Hshr.
    { unfold shr_fexp, fexp, emin, prec, emax. cbn [Zdigits2].
      rewrite (digits2_pos_unique Q 53) by (change (53 - 1) with 52; lia).
      replace (Z.max (53 + e0 - 53) (3 - 1024 - 53) - e0) with 0 by lia.
      reflexivity. }
    destruct (binary_round_aux_stage false _ _ _ _ _ Hshr) as (q & e & Heq & Hq & Hee & Hv).
    { rewrite shr_record_of_loc_m. lia. }
    { lia. }
    rewrite shr_record_of_loc_m, loc_of_shr_record_of_loc in Hv.
    destruct (Z.leb_spec e 971); [|lia].
    pose proof (round_nearest_even_located (Z.pos Q) R (Z.pos mp) HR) as (Hr1 & Hr2 & Hr3).
    exists q, e, 1, (Z.pos Q), (round_nearest_even (Z.pos Q) (located R (Z.pos mp))).
    replace (e0 + (1 - 1)) with e0 by lia.
    repeat split; try done; try lia;
      intros Hx; first [apply Hr2; lia | specialize (Hr3 Hx); lia].
  - (* 54 digits: one shift *)
    pose proof (shr_1_located Q R (Z.pos mp) HR) as [Hm Hloc].
    assert (shr_fexp prec emax (Z.pos Q) e0 (located R (Z.pos mp))
            = (shr_1 (shr_record_of_loc (Z.pos Q) (located R (Z.pos mp))), e0 + 1)) as Hshr.
    { unfold shr_fexp, fexp, emin, prec, emax. cbn [Zdigits2].
      rewrite (digits2_pos_unique Q 54) by (change (54 - 1) with 53; lia).
      replace (Z.max (54 + e0 - 53) (3 - 1024 - 53) - e0) with 1 by lia.
      reflexivity. }
    pose proof (Z.div_mod (Z.pos Q) 2 ltac:(lia)) as HQ2.
    pose proof (Z.mod_pos_bound (Z.pos Q) 2 ltac:(lia)) as Hr0.
    set (m1 := Z.pos Q / 2) in *. set (r0 := Z.pos Q mod 2) in *.
    destruct (binary_round_aux_stage false _ _ _ _ _ Hshr) as (q & e & Heq & Hq & Hee & Hv).
    { rewrite Hm. lia. }
    { lia. }
    rewrite Hm, Hloc in Hv.
    destruct (Z.leb_spec e 971); [|lia].
    assert (0 <= r0 * Z.pos mp + R < 2 * Z.pos mp) as Hnum by nia.
    pose proof (round_nearest_even_located m1 _ _ Hnum) as (Hr1 & Hr2 & Hr3).
    exists q, e, 2, m1, (round_nearest_even m1 (located (r0 * Z.pos mp + R) (2 * Z.pos mp))).
    replace (e0 + (2 - 1)) with (e0 + 1) by lia.
    repeat split; try done; try lia; try nia;
      intros Hx; first [apply Hr2; nia | specialize (Hr3 Hx); nia].
Qed.

Lemma ceil_div_spec (c p : Z) :
  0 < p -> (ceil_div c p - 1) * p < c <= ceil_div c p * p.
Proof.
  intros Hp. unfold ceil_div.
  pose proof (Z.div_mod (c + p - 1) p ltac:(lia)) as Hdm.
  pose proof (Z.mod_pos_bound (c + p - 1) p Hp) as Hb.
  nia.
Qed.

Lemma ceil_unique (q F N : Z) :
  0 < F -> (N - 1) * F < q <= N * F -> - ((- q) / F) = N.
Proof.
  intros HF Hq.
  assert ((- q) / F = - N) as ->; [|lia].
  symmetry. apply (Z.div_unique_pos _ _ _ (N * F - q)); lia.
Qed.

Section CeilConversion.

Context {impl : Implementation}.

(** The ceiling of a positive float whose value [q * 2 ^ e] lies in
    [(N - 1, N]] converts to [N]. The bounds are scaled by [2 ^ (k - e)],
    which is an integer. *)
Lemma to_int_Ceil (q : positive) (e N k : Z) :
  0 <= k <= 1 -> e - k <= 0 -> 1 <= N <= 2 ^ 53 ->
  (N - 1) * 2 ^ (k - e) < Z.pos q * 2 ^ k <= N * 2 ^ (k - e) ->
  to_int (math.Ceil (S754_finite false q e)) = N.
Proof.
  intros Hk He HN Hq. cbn [math.Ceil].
  assert (0 < 2 ^ k) by (apply Z.pow_pos_nonneg; lia).
  destruct (Z.leb_spec 0 e) as [Hpos|Hneg].
  - assert (2 ^ k = 2 ^ e * 2 ^ (k - e)) as Hsplit.
    { rewrite <- Z.pow_add_r by lia. f_equal; lia. }
    assert (0 < 2 ^ (k - e)) by (apply Z.pow_pos_nonneg; lia).
    assert (0 < 2 ^ e) by (apply Z.pow_pos_nonneg; lia).
    assert (Z.pos q * 2 ^ e = N) as HqN by nia.
    unfold to_int. cbn [trunc].
    destruct (Z.leb_spec 0 e); [|lia]. rewrite HqN.
    unfold GoInt.min_int, GoInt.max_int.
    destruct (Z.leb_spec (- 2 ^ 63) N); [|lia].
    destruct (Z.leb_spec N (2 ^ 63 - 1)); [reflexivity|lia].
  - assert (2 ^ (k - e) = 2 ^ k * 2 ^ (- e)) as Hsplit.
    { rewrite <- Z.pow_add_r by lia. f_equal; lia. }
    assert (0 < 2 ^ (- e)) by (apply Z.pow_pos_nonneg; lia).
    rewrite (ceil_unique (Z.pos q) (2 ^ (- e)) N) by nia.
    destruct (Z.eqb_spec N 0); [lia|].
    apply to_int_of_int. lia.
Qed.

(** The integer form of rounding a quotient [c / p] on a grid of spacing
    [1 / G]: [m1] is the cell of the quotient, [m2] the rounded one. If a
    unit of [c / p] is more than half a cell, the ceiling survives the
    rounding. *)
Lemma ceil_survives_rounding (c p G m1 m2 N : Z) :
  0 < p -> 0 < G ->
  (N - 1) * p < c <= N * p ->
  m1 * p <= c * G < (m1 + 1) * p ->
  m1 <= m2 <= m1 + 1 ->
  (c * G = m1 * p -> m2 = m1) ->
  (m2 = m1 -> 2 * (c * G - m1 * p) <= p) ->
  p < 2 * G ->
  (N - 1) * G < m2 <= N * G.
Proof.
  intros Hp HG [HN1 HN2] [Hm1 Hm1'] Hm2 Hex Hdown HpG.
  assert ((N - 1) * G * p < (m1 + 1) * p) as Hlo.
  { apply Z.le_lt_trans with (c * G - G); [|lia].
    replace ((N - 1) * G * p) with (((N - 1) * p) * G) by ring.
    replace (c * G - G) with ((c - 1) * G) by ring.
    apply Z.mul_le_mono_nonneg_r; lia. }
  apply Z.mul_lt_mono_pos_r in Hlo; [|lia].
  assert (m1 * p <= N * G * p) as Hhi.
  { apply Z.le_trans with (c * G); [lia|].
    replace (N * G * p) with ((N * p) * G) by ring.
    apply Z.mul_le_mono_nonneg_r; lia. }
  apply Z.mul_le_mono_pos_r in Hhi; [|lia].
  split.
  - destruct (Z.eq_dec m2 ((N - 1) * G)) as [Heq|]; [|lia].
    assert (m2 = m1) as Hd by lia. specialize (Hdown Hd).
    assert (G <= c * G - m1 * p); [|lia].
    rewrite <- Hd, Heq.
    replace (c * G - (N - 1) * G * p) with ((c - (N - 1) * p) * G) by ring.
    replace G with (1 * G) at 1 by ring.
    apply Z.mul_le_mono_nonneg_r; lia.
  - destruct (Z.eq_dec m2 m1) as [|Hne]; [lia|].
    assert (c * G <> m1 * p) as Hinex by (intros Heq; apply Hne, Hex, Heq).
    assert (m1 * p < N * G * p) as Hlt.
    { apply Z.lt_le_trans with (c * G); [lia|].
      replace (N * G * p) with ((N * p) * G) by ring.
      apply Z.mul_le_mono_nonneg_r; lia. }
    apply Z.mul_lt_mono_pos_r in Hlt; lia.
Qed.

(** [int(math.Ceil(float64(c) / float64(p)))] is [ceil(c / p)] for a
    positive [c] below [2 ^ 53] and a positive [p] up to [2 ^ 53]: both are
    held exactly, the quotient is rounded on a grid that contains the
    integers, and one unit of [c / p] is more than half a cell of it. *)
Lemma last_index_exact (c p : Z) :
  0 < c < 2 ^ 53 -> 0 < p <= 2 ^ 53 -> last_index c p = ceil_div c p.
Proof.
  intros Hc Hp. unfold last_index.
  destruct c as [|c|c]; try lia. destruct p as [|p|p]; try lia.
  destruct (of_int_exact c) as (mc & ec & -> & Hrc); [lia|].
  destruct (of_int_exact p) as (mp & ep & -> & Hrp); [lia|].
  pose proof (exact_repr_mantissa _ _ _ Hrc) as Hmc.
  pose proof (exact_repr_mantissa _ _ _ Hrp) as Hmp.
  pose proof (exact_repr_below _ _ _ Hrc ltac:(lia)) as Hec0.
  destruct Hrc as (Hdc & Hec & Hvc), Hrp as (Hdp & Hep & Hvp).
  destruct (SFdiv_round mc mp ec ep Hdc Hdp ltac:(lia))
    as (q & e & w & m1 & m2 & -> & Hq & Hw & He & Hm2 & Hm1 & Hbr & Hr12 & Hex & Hdown).
  set (N := ceil_div (Z.pos c) (Z.pos p)).
  pose proof (ceil_div_spec (Z.pos c) (Z.pos p) ltac:(lia)) as HN. fold N in HN.
  set (A := 2 ^ (ec + 52)) in *. set (B := 2 ^ (ep + 52)) in *.
  assert (0 < A) by (apply Z.pow_pos_nonneg; lia).
  assert (0 < B) by (apply Z.pow_pos_nonneg; lia).
  assert (A <= 2 ^ 52) as HA by (apply Z.pow_le_mono_r; lia).
  set (e1 := ec - ep - 53 + (w - 1)) in *.
  set (G := 2 ^ (- e1)).
  assert (0 < G) by (apply Z.pow_pos_nonneg; lia).
  assert (G * A * w = 2 ^ 53 * B) as HG.
  { unfold G, A, B, e1. destruct Hw as [-> | ->].
    - rewrite Z.mul_1_r, <- !Z.pow_add_r by lia. f_equal; lia.
    - replace (2 ^ (- (ec - ep - 53 + (2 - 1))) * 2 ^ (ec + 52) * 2)
        with (2 ^ (- (ec - ep - 53 + (2 - 1))) * 2 ^ (ec + 52) * 2 ^ 1) by lia.
      rewrite <- !Z.pow_add_r by lia. f_equal; lia. }
  assert (0 < w) by lia.
  assert (0 < Z.pos mp * w) as Hmw by lia.
  assert (Z.pos c * G * (Z.pos mp * w) = Z.pos p * (Z.pos mc * 2 ^ 53)) as Hrel.
  { apply (Z.mul_reg_r _ _ (2 ^ 52)); [lia|].
    replace (Z.pos c * G * (Z.pos mp * w) * 2 ^ 52)
      with ((Z.pos c * 2 ^ 52) * Z.pos mp * (G * w)) by ring.
    replace (Z.pos p * (Z.pos mc * 2 ^ 53) * 2 ^ 52)
      with ((Z.pos p * 2 ^ 52) * Z.pos mc * 2 ^ 53) by ring.
    rewrite Hvc, Hvp.
    replace (Z.pos mc * A * Z.pos mp * (G * w)) with (Z.pos mc * Z.pos mp * (G * A * w)) by ring.
    rewrite HG. ring. }
  assert (m1 * Z.pos p <= Z.pos c * G < (m1 + 1) * Z.pos p) as Hbr'.
  { destruct Hbr as [Hb1 Hb2]. split.
    - apply (Z.mul_le_mono_pos_r _ _ (Z.pos mp * w)); [lia|]. rewrite Hrel.
      replace (m1 * Z.pos p * (Z.pos mp * w)) with (Z.pos p * (m1 * (Z.pos mp * w))) by ring.
      apply Z.mul_le_mono_nonneg_l; lia.
    - apply (Z.mul_lt_mono_pos_r (Z.pos mp * w)); [lia|]. rewrite Hrel.
      replace ((m1 + 1) * Z.pos p * (Z.pos mp * w))
        with (Z.pos p * ((m1 + 1) * (Z.pos mp * w))) by ring.
      apply Z.mul_lt_mono_pos_l; lia. }
  assert (Z.pos c * G = m1 * Z.pos p -> m2 = m1) as Hex'.
  { intros Heq. apply Hex.
    apply (Z.mul_reg_l _ _ (Z.pos p)); [lia|]. rewrite <- Hrel, Heq. ring. }
  assert (m2 = m1 -> 2 * (Z.pos c * G - m1 * Z.pos p) <= Z.pos p) as Hdown'.
  { intros Heq. specialize (Hdown Heq).
    apply (Z.mul_le_mono_pos_r _ _ (Z.pos mp * w)); [lia|].
    replace (2 * (Z.pos c * G - m1 * Z.pos p) * (Z.pos mp * w))
      with (2 * (Z.pos c * G * (Z.pos mp * w)) - Z.pos p * (2 * (m1 * (Z.pos mp * w)))) by ring.
    rewrite Hrel.
    replace (2 * (Z.pos p * (Z.pos mc * 2 ^ 53)) - Z.pos p * (2 * (m1 * (Z.pos mp * w))))
      with (Z.pos p * (2 * (Z.pos mc * 2 ^ 53 - m1 * (Z.pos mp * w)))) by ring.
    apply Z.mul_le_mono_nonneg_l; lia. }
  assert (Z.pos p < 2 * G) as HpG.
  { apply (Z.mul_lt_mono_pos_r (2 ^ 52)); [lia|].
    rewrite Hvp. fold B.
    apply Z.lt_le_trans with (2 ^ 53 * B); [apply Z.mul_lt_mono_pos_r; lia|].
    rewrite <- HG.
    replace (2 * G * 2 ^ 52) with (G * (2 ^ 52 * 2)) by ring.
    rewrite <- Z.mul_assoc.
    apply Z.mul_le_mono_nonneg_l; [lia|].
    apply Z.mul_le_mono_nonneg; lia. }
  pose proof (ceil_survives_rounding (Z.pos c) (Z.pos p) G m1 m2 N
                ltac:(lia) ltac:(lia) HN Hbr' Hr12 Hex' Hdown' HpG) as Hm2N.
  assert (1 <= N).
  { destruct (Z.leb_spec 1 N); [done|].
    assert (N * Z.pos p <= 0 * Z.pos p) by (apply Z.mul_le_mono_nonneg_r; lia). lia. }
  assert (N <= Z.pos c).
  { destruct (Z.leb_spec N (Z.pos c)); [done|].
    assert (Z.pos c * 1 <= (N - 1) * Z.pos p) by (apply Z.mul_le_mono_nonneg; lia). lia. }
  apply (to_int_Ceil q e N (e - e1)); try lia.
  replace (e - e1 - e) with (- e1) by lia. fold G. rewrite <- Hm2. lia.
Qed.

(** A page size above [2 ^ 53] is above the count: the quotient rounds to
    a number in (0, 1], whose ceiling is 1. *)
Lemma last_index_large_page (c p : Z) :
  0 < c < 2 ^ 53 -> 2 ^ 53 <= p < 2 ^ 64 -> last_index c p = 1.
Proof.
  intros Hc Hp. unfold last_index.
  destruct c as [|c|c]; try lia. destruct p as [|p|p]; try lia.
  destruct (of_int_exact c) as (mc & ec & -> & Hrc); [lia|].
  destruct (of_int_large p Hp) as (mp & ep & -> & Hdp & Hep).
  pose proof (exact_repr_below _ _ _ Hrc ltac:(lia)) as Hec0.
  destruct Hrc as (Hdc & Hec & _).
  destruct (SFdiv_round mc mp ec ep Hdc Hdp ltac:(lia))
    as (q & e & w & m1 & m2 & -> & Hq & Hw & He & Hm2 & Hm1 & _ & Hr12 & _).
  set (e1 := ec - ep - 53 + (w - 1)) in *.
  assert (2 ^ 53 <= 2 ^ (- e1)) by (apply Z.pow_le_mono_r; lia).
  apply (to_int_Ceil q e 1 (e - e1)); try lia.
  replace (e - e1 - e) with (- e1) by lia. rewrite <- Hm2. lia.
Qed.

Lemma ceil_div_small (c p : Z) : 0 < c <= p -> ceil_div c p = 1.
Proof.
  intros Hc. unfold ceil_div. symmetry.
  apply (Z.div_unique_pos _ _ _ (c - 1)); lia.
Qed.

(** [int(math.Ceil(float64(c) / float64(p)))] is [ceil(c / p)] for a
    positive [c] below [2 ^ 53] and every positive [int] [p]. *)
Lemma last_index_int (c p : Z) :
  0 < c < 2 ^ 53 -> 0 < p <= GoInt.max_int -> last_index c p = ceil_div c p.
Proof.
  intros Hc Hp. unfold GoInt.max_int in Hp.
  destruct (Z.leb_spec p (2 ^ 53)).
  - apply last_index_exact; lia.
  - rewrite last_index_large_page, ceil_div_small by lia. reflexivity.
Qed.

End CeilConversion.

End Float64.

(** ** Links *)

Section Links.

Context {codec : url.Codec}.

Lemma String_nonempty (u : url.URL) :
  url.nonempty (url.Scheme u) = true -> url.String_ u <> "".
Proof.
  unfold url.String_. intros ->.
  destruct (url.Scheme u) as [|c scheme]; simpl; discriminate.
Qed.

Lemma PageQueryParams_page (page perPage : Z) :
  PageQueryParams page perPage !! ParamPage = Some (fmt.Sprintf_d page).
Proof.
  unfold PageQueryParams.
  rewrite lookup_insert_ne by discriminate.
  apply lookup_insert_eq.
Qed.

Lemma PageQueryParams_per_page (page perPage : Z) :
  PageQueryParams page perPage !! ParamPerPage = Some (fmt.Sprintf_d perPage).
Proof. unfold PageQueryParams. apply lookup_insert_eq. Qed.

Lemma UrlWithPage_nonempty (req : http.Request) (page perPage : Z) :
  url.String_ (UrlWithPage req page perPage) <> "".
Proof.
  apply String_nonempty. simpl. destruct (http.TLS req); reflexivity.
Qed.

Lemma UrlWithPage_encodes_page (req : http.Request) (page perPage : Z) :
  encodes_page req page perPage (url.String_ (UrlWithPage req page perPage)).
Proof.
  exists (((fun v => [v]) <$> PageQueryParams page perPage)
            ∪ url.Query (eu.RequestUrl req)).
  repeat split.
  - rewrite lookup_union, lookup_fmap, PageQueryParams_page. simpl.
    destruct (url.Query (eu.RequestUrl req) !! ParamPage); reflexivity.
  - rewrite lookup_union, lookup_fmap, PageQueryParams_per_page. simpl.
    destruct (url.Query (eu.RequestUrl req) !! ParamPerPage); reflexivity.
  - intros key Hpage Hper. apply lookup_union_r.
    rewrite lookup_fmap. unfold PageQueryParams.
    rewrite !lookup_insert_ne, lookup_empty by congruence. reflexivity.
Qed.

End Links.

(** ** The paths through [GetPage] *)

Section Paths.

Context {Ctx Err : Type} {codec : url.Codec} {impl : GoFloat.Implementation}.
Context {I T : Type} {pq : PQ Ctx Err I T}.

Implicit Types (gc : gin.Context) (qc : Ctx) (params : PaginatedParams) (w : World T).

Ltac step := cbv beta iota zeta; cbn [query calls divideByZero fst snd].

Ltac run_GetPage :=
  unfold GetPage, bind, ret, query_Count, query_Offset, query_Limit, query_All,
    float_div, after; step.

(** The count fails: the error is returned after the one call. *)
Lemma GetPage_count_fails gc qc params w n e q :
  Count qc (query w) = (n, Some e, q) ->
  GetPage gc qc params w = (Fail e, after w q [CallCount] false).
Proof.
  intros HC. run_GetPage. rewrite HC. step.
  rewrite orb_false_r. reflexivity.
Qed.

(** The count is zero: the empty page is returned after the one call. *)
Lemma GetPage_empty gc qc params w q :
  Count qc (query w) = (0, None, q) ->
  GetPage gc qc params w =
    (Ok (empty_list (gin.Request gc) params), after w q [CallCount] false).
Proof.
  intros HC. run_GetPage. rewrite HC. step.
  rewrite orb_false_r. reflexivity.
Qed.

(** The fetch fails: the error is returned, before any division. *)
Lemma GetPage_fetch_fails gc qc params w count q rows e q' :
  Count qc (query w) = (count, None, q) ->
  count <> 0 ->
  All qc (windowed params q) = (rows, Some e, q') ->
  GetPage gc qc params w = (Fail e, after w q' (fetch_log params) false).
Proof.
  intros HC Hne HA. run_GetPage. rewrite HC. step.
  destruct (Z.eqb_spec 0 count) as [?|_]; [congruence|]. step.
  unfold windowed in HA. rewrite HA. step.
  rewrite orb_false_r, <- !app_assoc. reflexivity.
Qed.

(** Count and fetch succeed on a non-empty collection. *)
Lemma GetPage_page gc qc params w count q rows q' :
  Count qc (query w) = (count, None, q) ->
  count <> 0 ->
  All qc (windowed params q) = (rows, None, q') ->
  GetPage gc qc params w =
    (Ok (page_list (gin.Request gc) params count rows),
     after w q' (fetch_log params)
       (GoFloat.div_by_zero (GoFloat.of_int count) (GoFloat.of_int (PerPage params)))).
Proof.
  intros HC Hne HA. run_GetPage. rewrite HC. step.
  destruct (Z.eqb_spec 0 count) as [?|_]; [congruence|]. step.
  unfold windowed in HA. rewrite HA. step.
  unfold page_list, last_page, last_index, to_index.
  rewrite <- !app_assoc.
  destruct (_ <=? 1); step;
    destruct (_ <? GoInt.add _ _); step;
    destruct (GoInt.sub _ _ <? 1); reflexivity.
Qed.

(** Every run of [GetPage] is one of the four paths. *)
Lemma GetPage_paths gc qc params w :
  exists count cerr q, Count qc (query w) = (count, cerr, q) /\
    match cerr with
    | Some e => GetPage gc qc params w = (Fail e, after w q [CallCount] false)
    | None =>
        if decide (count = 0) then
          GetPage gc qc params w =
            (Ok (empty_list (gin.Request gc) params), after w q [CallCount] false)
        else
          exists rows ferr q', All qc (windowed params q) = (rows, ferr, q') /\
            match ferr with
            | Some e =>
                GetPage gc qc params w = (Fail e, after w q' (fetch_log params) false)
            | None =>
                GetPage gc qc params w =
                  (Ok (page_list (gin.Request gc) params count rows),
                   after w q' (fetch_log params)
                     (GoFloat.div_by_zero (GoFloat.of_int count)
                        (GoFloat.of_int (PerPage params))))
            end
    end.
Proof.
  destruct (Count qc (query w)) as [[count cerr] q] eqn:HC.
  exists count, cerr, q. split; [reflexivity|].
  destruct cerr as [e|].
  - eapply GetPage_count_fails; eassumption.
  - destruct (decide (count = 0)) as [->|Hne].
    + apply GetPage_empty; assumption.
    + destruct (All qc (windowed params q)) as [[rows ferr] q'] eqn:HA.
      exists rows, ferr, q'. split; [reflexivity|].
      destruct ferr as [e|].
      * eapply GetPage_fetch_fails; eassumption.
      * eapply GetPage_page; eassumption.
Qed.

(** A returned list is the empty list or the page list. *)
Lemma GetPage_Ok_inv gc qc params w l w' :
  GetPage gc qc params w = (Ok l, w') ->
  (Total l = 0 /\ l = empty_list (gin.Request gc) params) \/
  (Total l <> 0 /\ exists rows, l = page_list (gin.Request gc) params (Total l) rows).
Proof.
  intros HG.
  destruct (GetPage_paths gc qc params w) as (count & cerr & q & HC & Hpath).
  destruct cerr as [e|]; [congruence|].
  destruct (decide (count = 0)) as [->|Hne].
  - left. rewrite Hpath in HG. injection HG as <- _. split; reflexivity.
  - right. destruct Hpath as (rows & ferr & q' & HA & Hpath).
    destruct ferr as [e|]; [congruence|].
    rewrite Hpath in HG. injection HG as <- _.
    split; [exact Hne|]. exists rows. reflexivity.
Qed.

(** ** The empty collection *)

(** C3. When the count returns 0, whatever the requested page and per_page,
    the result has [CurrentPage = 1], [LastPage = 1], [From = 0], [To = 0],
    no data, empty last, next and previous links, and a first link that is
    not empty and points at page 1. *)
Theorem GetPage_empty_collection gc qc params w q :
  Count qc (query w) = (0, None, q) ->
  exists l,
    GetPage gc qc params w = (Ok l, after w q [CallCount] false) /\
    CurrentPage l = 1 /\ LastPage l = 1 /\ From l = 0 /\ To l = 0 /\ Data l = [] /\
    LastPageUrl l = "" /\ NextPageUrl l = "" /\ PrevPageUrl l = "" /\
    FirstPageUrl l <> "" /\ encodes_page (gin.Request gc) 1 (PerPage params) (FirstPageUrl l).
Proof.
  intros HC. exists (empty_list (gin.Request gc) params).
  split; [apply GetPage_empty; exact HC|].
  cbn. repeat split.
  - apply UrlWithPage_nonempty.
  - apply UrlWithPage_encodes_page.
Qed.

(** ** The current page *)

(** C4, as the code has it. Every returned list has [LastPage >= 1];
    [CurrentPage] is 1 for an empty collection and otherwise the requested
    page as it is, so it is at least 1 for resolved parameters. It is not
    clamped to [LastPage]. *)
Theorem GetPage_current_page gc qc params w l w' :
  GetPage gc qc params w = (Ok l, w') ->
  1 <= LastPage l /\
  CurrentPage l = (if Total l =? 0 then 1 else Page params) /\
  (1 <= Page params -> 1 <= CurrentPage l).
Proof.
  intros HG.
  destruct (GetPage_Ok_inv _ _ _ _ _ _ HG) as [[Hz ->]|[Hne [rows Hl]]].
  - cbn. repeat split; lia.
  - destruct (Z.eqb_spec (Total l) 0) as [?|_]; [contradiction|].
    rewrite Hl. cbn. unfold last_page.
    destruct (Z.leb_spec (last_index (Total l) (PerPage params)) 1); repeat split; lia.
Qed.

(** ** The previous and next links *)

(** C7. For a non-empty collection the previous link is empty exactly when
    the requested page is at most 1, and otherwise it is the link of page
    [page - 1]. The page is any [int] but the least one, whose predecessor
    wraps around; resolved pages are at least 1. *)
Theorem PrevPageUrl_iff gc qc params w l w' :
  GetPage gc qc params w = (Ok l, w') ->
  0 < Total l ->
  GoInt.min_int < Page params <= GoInt.max_int ->
  (PrevPageUrl l = "" <-> Page params <= 1) /\
  (1 < Page params ->
   encodes_page (gin.Request gc) (Page params - 1) (PerPage params) (PrevPageUrl l)).
Proof.
  intros HG Hpos Hpage.
  destruct (GetPage_Ok_inv _ _ _ _ _ _ HG) as [[Hz _]|[_ [rows ->]]]; [lia|].
  cbn. unfold GoInt.sub. rewrite wrap_id by (unfold GoInt.is_int; lia).
  destruct (Z.ltb_spec (Page params - 1) 1) as [Hlt|Hge].
  - split; [split; [lia|reflexivity] | lia].
  - split.
    + split; [|lia]. intros Hempty. contradict Hempty. apply UrlWithPage_nonempty.
    + intros _. apply UrlWithPage_encodes_page.
Qed.

(** X20. The next link, for every page but the greatest [int]: it is empty
    exactly when the requested page is at least [LastPage], and otherwise it
    is the link of page [page + 1]. *)
Lemma NextPageUrl_iff_below_max_int gc qc params w l w' :
  GetPage gc qc params w = (Ok l, w') ->
  0 < Total l ->
  GoInt.min_int <= Page params < GoInt.max_int ->
  (NextPageUrl l = "" <-> LastPage l <= Page params) /\
  (Page params < LastPage l ->
   encodes_page (gin.Request gc) (Page params + 1) (PerPage params) (NextPageUrl l)).
Proof.
  intros HG Hpos Hpage.
  destruct (GetPage_Ok_inv _ _ _ _ _ _ HG) as [[Hz _]|[_ [rows ->]]]; [lia|].
  cbn. unfold GoInt.add. rewrite wrap_id by (unfold GoInt.is_int; lia).
  destruct (Z.ltb_spec (last_page (Total l) (PerPage params)) (Page params + 1)) as [Hlt|Hge].
  - split; [split; [lia|reflexivity] | lia].
  - split.
    + split; [|lia]. intros Hempty. contradict Hempty. apply UrlWithPage_nonempty.
    + intros _. apply UrlWithPage_encodes_page.
Qed.

(** ** The window and the last page *)

Ltac int_range := unfold GoInt.is_int, GoInt.min_int, GoInt.max_int in *; lia.

(** [From] and [To] of the page list, where the products do not wrap and
    [float64] holds the count exactly. *)
Lemma page_list_From {V : Type} req params count (rows : list V) :
  1 <= Page params -> 1 <= PerPage params ->
  Page params * PerPage params <= GoInt.max_int ->
  From (page_list req params count rows) = (Page params - 1) * PerPage params + 1.
Proof.
  intros Hpage Hper Hprod.
  assert (Page params <= Page params * PerPage params) by nia.
  assert (0 <= (Page params - 1) * PerPage params < Page params * PerPage params) by nia.
  cbn. unfold GoInt.add, GoInt.mul, GoInt.sub.
  rewrite (wrap_id (Page params - 1)) by int_range.
  rewrite (wrap_id ((Page params - 1) * PerPage params)) by int_range.
  apply wrap_id. int_range.
Qed.

Lemma page_list_To {V : Type} req params count (rows : list V) :
  1 <= Page params -> 1 <= PerPage params ->
  0 < count < 2 ^ 53 -> Page params * PerPage params <= GoInt.max_int ->
  To (page_list req params count rows) = Z.min (Page params * PerPage params) count.
Proof.
  intros Hpage Hper Hcount Hprod.
  assert (Page params <= Page params * PerPage params) by nia.
  cbn. unfold to_index, GoInt.mul.
  rewrite wrap_id by int_range.
  unfold GoInt.max_int in Hprod.
  destruct (Z.ltb_spec (Page params * PerPage params) (2 ^ 53)).
  - rewrite Min_of_int by lia. apply to_int_of_int. lia.
  - rewrite Min_of_int_large by lia.
    rewrite Z.min_r by lia. apply to_int_of_int. lia.
Qed.

(** [LastPage] of the page list, where [float64] holds the count exactly. *)
Lemma page_list_LastPage {V : Type} req params count (rows : list V) :
  0 < count < 2 ^ 53 -> 1 <= PerPage params <= GoInt.max_int ->
  LastPage (page_list req params count rows)
  = Z.max 1 (ceil_div count (PerPage params)).
Proof.
  intros Hcount Hper. cbn. unfold last_page. rewrite last_index_int by lia.
  destruct (Z.leb_spec (ceil_div count (PerPage params)) 1); lia.
Qed.

(** [page <= ceil (count / per_page)] says that the page starts within the
    collection. *)
Lemma within_ceil_div (page per_page count : Z) :
  1 <= per_page -> 0 < count ->
  page <= Z.max 1 (ceil_div count per_page) <-> (page - 1) * per_page < count.
Proof.
  intros Hper Hcount.
  pose proof (ceil_div_spec count per_page ltac:(lia)) as HN.
  assert (1 <= ceil_div count per_page).
  { destruct (Z.leb_spec 1 (ceil_div count per_page)); [done|].
    assert (ceil_div count per_page * per_page <= 0 * per_page)
      by (apply Z.mul_le_mono_nonneg_r; lia).
    lia. }
  rewrite Z.max_r by lia. split; intros Hle.
  - assert ((page - 1) * per_page <= (ceil_div count per_page - 1) * per_page)
      by (apply Z.mul_le_mono_nonneg_r; lia).
    lia.
  - destruct (Z.leb_spec page (ceil_div count per_page)); [done|].
    assert (ceil_div count per_page * per_page <= (page - 1) * per_page)
      by (apply Z.mul_le_mono_nonneg_r; lia).
    lia.
Qed.

(** C1, as the code has it. For resolved parameters and a non-empty
    collection, with [page * per_page] within [int] and the total below
    [2 ^ 53]: [From = (page - 1) * per_page + 1] and
    [To = min (page * per_page) total]; [From <= To] holds exactly when
    [(page - 1) * per_page < total], that is when the requested page is not
    beyond the last one. *)
Theorem GetPage_window gc qc params w l w' :
  GetPage gc qc params w = (Ok l, w') ->
  1 <= Page params -> 1 <= PerPage params ->
  0 < Total l < 2 ^ 53 -> Page params * PerPage params <= GoInt.max_int ->
  From l = (Page params - 1) * PerPage params + 1 /\
  To l = Z.min (Page params * PerPage params) (Total l) /\
  (From l <= To l <-> (Page params - 1) * PerPage params < Total l).
Proof.
  intros HG Hpage Hper Htotal Hprod.
  destruct (GetPage_Ok_inv _ _ _ _ _ _ HG) as [[Hz _]|[_ [rows Hl]]]; [lia|].
  set (count := Total l) in *. rewrite Hl. clearbody count. clear Hl.
  rewrite page_list_From, page_list_To by assumption.
  repeat split; lia.
Qed.

(** X19. The last page, when the total is below [2 ^ 53], for every [int]
    page size from 1: [max 1 (ceil (total / per_page))]. *)
Lemma LastPage_exact gc qc params w l w' :
  GetPage gc qc params w = (Ok l, w') ->
  0 <= Total l < 2 ^ 53 -> 1 <= PerPage params <= GoInt.max_int ->
  LastPage l = Z.max 1 (ceil_div (Total l) (PerPage params)).
Proof.
  intros HG Htotal Hper.
  destruct (GetPage_Ok_inv _ _ _ _ _ _ HG) as [[Hz ->]|[Hne [rows Hl]]].
  - pose proof (ceil_div_spec 0 (PerPage params) ltac:(lia)) as HN.
    cbn in *. nia.
  - set (count := Total l) in *. rewrite Hl. clearbody count. clear Hl.
    apply page_list_LastPage; lia.
Qed.

(** X21. For resolved parameters, a total below [2 ^ 53] and
    [page * per_page] within [int], [From <= To] says that the page is within
    the last one. *)
Lemma From_le_To_iff_within_last_page gc qc params w l w' :
  GetPage gc qc params w = (Ok l, w') ->
  1 <= Page params -> 1 <= PerPage params ->
  0 < Total l < 2 ^ 53 -> Page params * PerPage params <= GoInt.max_int ->
  (From l <= To l <-> CurrentPage l <= LastPage l).
Proof.
  intros HG Hpage Hper Htotal Hprod.
  destruct (GetPage_Ok_inv _ _ _ _ _ _ HG) as [[Hz _]|[_ [rows Hl]]]; [lia|].
  set (count := Total l) in *. rewrite Hl. clearbody count. clear Hl.
  assert (PerPage params <= Page params * PerPage params) by nia.
  rewrite page_list_From, page_list_To, page_list_LastPage
    by (assumption || lia).
  cbn [CurrentPage page_list].
  rewrite within_ceil_div by lia. lia.
Qed.

(** ** The division *)

(** C10. The last-page computation divides [float64(count)] by
    [float64(params.PerPage)] with no guard. For an [int] page size of at
    least 1 the divisor is not zero, a run does not raise the divideByZero
    flag, and the quotient of a positive [int] count is a finite number. For
    a page size of 0 a run that returns the page of a non-empty collection
    has divided by zero: the quotient is +Inf and the flag is raised. *)
Theorem GetPage_division gc qc params w r w' :
  GetPage gc qc params w = (r, w') ->
  (1 <= PerPage params <= GoInt.max_int ->
     (forall s, GoFloat.of_int (PerPage params) <> S754_zero s) /\
     divideByZero w' = divideByZero w /\
     (forall count, 0 < count <= GoInt.max_int ->
        exists m e,
          GoFloat.div (GoFloat.of_int count) (GoFloat.of_int (PerPage params))
          = S754_finite false m e)) /\
  (PerPage params = 0 ->
     forall l, r = Ok l -> 0 < Total l <= GoInt.max_int ->
       GoFloat.div (GoFloat.of_int (Total l)) (GoFloat.of_int (PerPage params))
       = S754_infinity false /\
       divideByZero w' = true).
Proof.
  intros HG. split.
  - intros Hper.
    assert (forall s, GoFloat.of_int (PerPage params) <> S754_zero s) as Hnz
      by (intros s; apply of_int_nonzero; lia).
    split; [exact Hnz|]. split.
    + destruct (GetPage_paths gc qc params w) as (count & cerr & q & HC & Hpath).
      destruct cerr as [e|].
      { rewrite Hpath in HG. injection HG as _ <-. cbn. apply orb_false_r. }
      destruct (decide (count = 0)) as [->|Hne].
      { rewrite Hpath in HG. injection HG as _ <-. cbn. apply orb_false_r. }
      destruct Hpath as (rows & ferr & q' & HA & Hpath).
      destruct ferr as [e|]; rewrite Hpath in HG; injection HG as _ <-; cbn.
      { apply orb_false_r. }
      destruct (GoFloat.of_int (PerPage params)) as [s| | |] eqn:Hd;
        [exfalso; exact (Hnz s eq_refl)|..];
        destruct (GoFloat.of_int count); cbn; apply orb_false_r.
    + intros count Hcount. unfold GoInt.max_int in *.
      destruct (of_int_finite count) as (mc & ec & -> & Hdc & Hec); [lia|lia|].
      destruct (of_int_finite (PerPage params)) as (mp & ep & -> & Hdp & Hep); [lia|lia|].
      destruct (Z.ltb_spec count 0); [lia|].
      destruct (Z.ltb_spec (PerPage params) 0); [lia|].
      destruct (SFdiv_round mc mp ec ep Hdc Hdp ltac:(lia)) as (q & e & _ & _ & _ & -> & _).
      exists q, e. reflexivity.
  - intros Hper l -> Htotal. rewrite Hper in *.
    destruct (GetPage_paths gc qc params w) as (count & cerr & q & HC & Hpath).
    destruct cerr as [e|]; [congruence|].
    destruct (decide (count = 0)) as [->|Hne].
    { rewrite Hpath in HG. injection HG as <- _. cbn in Htotal. lia. }
    destruct Hpath as (rows & ferr & q' & HA & Hpath).
    destruct ferr as [e|]; [congruence|].
    rewrite Hpath in HG. injection HG as <- <-. cbn in Htotal |- *.
    rewrite Hper. unfold GoInt.max_int in *.
    destruct (of_int_finite count) as (mc & ec & -> & _); [lia|lia|].
    destruct (Z.ltb_spec count 0); [lia|].
    split; [reflexivity|]. cbn. apply orb_true_r.
Qed.

(** ** Errors *)

(** C8. [GetPage] returns an error exactly when the count fails, or the
    count succeeds with a non-zero value and the fetch fails; the error is
    the one the query gave, no list comes with it, and when the count fails
    the count is the only call made on the query. *)
Theorem GetPage_error_iff gc qc params w count cerr q rows ferr q' r w' :
  Count qc (query w) = (count, cerr, q) ->
  All qc (windowed params q) = (rows, ferr, q') ->
  GetPage gc qc params w = (r, w') ->
  (forall e, r = Fail e <->
             cerr = Some e \/ (cerr = None /\ count <> 0 /\ ferr = Some e)) /\
  (is_Some (result_err r) -> result_list r = None) /\
  (is_Some cerr -> calls w' = calls w ++ [CallCount] /\ query w' = q).
Proof.
  intros HC HA HG.
  destruct (GetPage_paths gc qc params w) as (count' & cerr' & q0 & HC' & Hpath).
  rewrite HC in HC'. injection HC' as <- <- <-.
  split; [|split].
  - intros e. destruct cerr as [e0|].
    + rewrite Hpath in HG. injection HG as <- _.
      split; [intros [= ->]; left; reflexivity|].
      intros [[= ->]|[? _]]; [reflexivity|discriminate].
    + destruct (decide (count = 0)) as [->|Hne].
      * rewrite Hpath in HG. injection HG as <- _.
        split; [discriminate|]. intros [?|(_ & ? & _)]; [discriminate|contradiction].
      * destruct Hpath as (rows' & ferr' & q'' & HA' & Hpath).
        rewrite HA in HA'. injection HA' as <- <- <-.
        destruct ferr as [e0|]; rewrite Hpath in HG; injection HG as <- _.
        -- split; [intros [= ->]; right; repeat split; done|].
           intros [?|(_ & _ & [= ->])]; [discriminate|reflexivity].
        -- split; [discriminate|]. intros [?|(_ & _ & ?)]; discriminate.
  - destruct r as [l|e]; cbn; [intros [? [=]]|reflexivity].
  - intros [e ->]. rewrite Hpath in HG. injection HG as _ <-.
    cbn. split; reflexivity.
Qed.

(** ** The mapped variant *)

(** C9. A successful [GetPageMapped] is a successful [GetPage] on the same
    inputs, with the same final world; the two lists agree on every field but
    [Data], and the mapped data has the same length and holds
    [mapper row i] at every index [i] where the original holds [row]. *)
Theorem GetPageMapped_frame {V : Type} gc qc params (mapper : I -> Z -> V) w l' w' :
  GetPageMapped gc qc params mapper w = (Ok l', w') ->
  exists l,
    GetPage gc qc params w = (Ok l, w') /\
    Total l' = Total l /\ PerPage' l' = PerPage' l /\
    CurrentPage l' = CurrentPage l /\ LastPage l' = LastPage l /\
    FirstPageUrl l' = FirstPageUrl l /\ LastPageUrl l' = LastPageUrl l /\
    NextPageUrl l' = NextPageUrl l /\ PrevPageUrl l' = PrevPageUrl l /\
    Path l' = Path l /\ From l' = From l /\ To l' = To l /\
    List.length (Data l') = List.length (Data l) /\
    (forall (i : nat) (row : I),
       Data l !! i = Some row -> Data l' !! i = Some (mapper row (Z.of_nat i))).
Proof.
  unfold GetPageMapped, bind, ret.
  destruct (GetPage gc qc params w) as [[l|e] w0]; [|discriminate].
  intros [= <- <-]. exists l. cbn.
  repeat split; try reflexivity.
  - apply length_imap.
  - intros i row Hrow. rewrite list_lookup_imap, Hrow. reflexivity.
Qed.

(** [GetPageMapped] fails exactly when [GetPage] does, with the same error. *)
Lemma GetPageMapped_error {V : Type} gc qc params (mapper : I -> Z -> V) w e w' :
  GetPageMapped gc qc params mapper w = (Fail e, w') <->
  GetPage gc qc params w = (Fail e, w').
Proof.
  unfold GetPageMapped, bind, ret.
  destruct (GetPage gc qc params w) as [[l|e0] w0]; split; congruence.
Qed.

End Paths.

(** ** The parameter resolver *)

(** C5, as the code has it. With positive defaults the resolved parameters
    are positive, and a raw value that is missing, unparsable or below 1
    gives way to its default. When the binding reports an error (the form of
    the request does not parse, or one of the two values does not) both
    fields are the defaults, whatever the raw values are. When it reports
    none, a raw value of at least 1 is returned as it is, so raw values that
    are both valid are returned unchanged. *)
Theorem GetPaginationParamsWithDefault_resolves gc defaultPage defaultPerPage :
  1 <= defaultPage -> 1 <= defaultPerPage ->
  let p := GetPaginationParamsWithDefault gc defaultPage defaultPerPage in
  1 <= Page p /\ 1 <= PerPage p /\
  (replaced (gin.form_page gc) -> Page p = defaultPage) /\
  (replaced (gin.form_per_page gc) -> PerPage p = defaultPerPage) /\
  ((ShouldBind gc {| Page := 0; PerPage := 0 |}).2 = true <-> bind_fails gc) /\
  (bind_fails gc -> p = {| Page := defaultPage; PerPage := defaultPerPage |}) /\
  (~ bind_fails gc ->
   (forall page, gin.form_page gc = gin.Int page -> 1 <= page -> Page p = page) /\
   (forall per_page,
      gin.form_per_page gc = gin.Int per_page -> 1 <= per_page -> PerPage p = per_page)) /\
  (forall page per_page,
     gin.form_error gc = false ->
     gin.form_page gc = gin.Int page -> gin.form_per_page gc = gin.Int per_page ->
     1 <= page -> 1 <= per_page ->
     p = {| Page := page; PerPage := per_page |}).
Proof.
  intros Hp Hpp. unfold GetPaginationParamsWithDefault, ShouldBind, bind_fails.
  destruct gc as [req [|] [| |page] [| |per_page]];
    cbn [gin.form_error gin.form_page gin.form_per_page gin.bind_int
         Page PerPage replaced fst snd];
    repeat (cbn [Page PerPage];
            match goal with
            | |- context [?a <? 1] => destruct (Z.ltb_spec a 1)
            end);
    cbn [Page PerPage] in *;
    repeat match goal with
           | |- _ /\ _ => split
           | |- _ <-> _ => split
           end;
    try lia; try reflexivity; try (intros; lia);
    try (intros [?|[?|?]]; congruence);
    try (intros _; first [left; reflexivity | right; left; reflexivity
                         | right; right; reflexivity]);
    try (intros Hnot; exfalso; apply Hnot;
         first [left; reflexivity | right; left; reflexivity | right; right; reflexivity]);
    try (intros _; split; intros ? [=] ?; subst; first [reflexivity | lia]);
    try (intros ? ? ? [= <-] [= <-] ? ?; first [reflexivity | lia | discriminate]);
    try (intros; discriminate).
Qed.

(** ** The resolver and the getters *)

(** With the defaults 1 and 10 both fields of the result are positive. *)
Lemma GetPaginationParams_positive gc :
  1 <= Page (GetPaginationParams gc) /\ 1 <= PerPage (GetPaginationParams gc).
Proof.
  unfold GetPaginationParams, GetPaginationParamsWithDefault, ShouldBind.
  destruct gc as [req [|] [| |page] [| |per_page]];
    cbn [gin.form_error gin.form_page gin.form_per_page gin.bind_int Page PerPage];
    repeat (cbn [Page PerPage];
            match goal with
            | |- context [?a <? 1] => destruct (Z.ltb_spec a 1)
            end);
    cbn [Page PerPage] in *; split; lia.
Qed.

(** X1. [GetPaginationParams] is the two getters of [PaginatedParams] on the
    bound struct: when the binding succeeds its result is
    [{pp.GetPage(), pp.GetPerPage()}], and when it fails it is [{1, 10}]. The
    getters leave a resolved struct as it is. *)
Theorem GetPaginationParams_getters gc :
  let bound := ShouldBind gc {| Page := 0; PerPage := 0 |} in
  GetPaginationParams gc =
    (if bound.2 then {| Page := 1; PerPage := 10 |}
     else {| Page := PaginatedParams_GetPage bound.1;
             PerPage := PaginatedParams_GetPerPage bound.1 |}) /\
  PaginatedParams_GetPage (GetPaginationParams gc) = Page (GetPaginationParams gc) /\
  PaginatedParams_GetPerPage (GetPaginationParams gc) = PerPage (GetPaginationParams gc).
Proof.
  unfold GetPaginationParams, GetPaginationParamsWithDefault, ShouldBind,
    PaginatedParams_GetPage, PaginatedParams_GetPerPage.
  destruct gc as [req [|] [| |page] [| |per_page]];
    cbn [gin.form_error gin.form_page gin.form_per_page gin.bind_int Page PerPage fst snd];
    repeat (cbn [Page PerPage fst snd];
            match goal with
            | |- context [?a <? 1] => destruct (Z.ltb_spec a 1)
            end);
    cbn [Page PerPage fst snd] in *; repeat split; try reflexivity; try lia.
Qed.

(** X2. A binding error resets both fields: when either raw value does not
    parse, the result is the two defaults, whatever the other value is and
    whatever the defaults are. *)
Theorem GetPaginationParamsWithDefault_bind_error gc defaultPage defaultPerPage :
  gin.form_page gc = gin.Malformed \/ gin.form_per_page gc = gin.Malformed ->
  GetPaginationParamsWithDefault gc defaultPage defaultPerPage
  = {| Page := defaultPage; PerPage := defaultPerPage |}.
Proof.
  unfold GetPaginationParamsWithDefault, ShouldBind.
  destruct gc as [req [|] [| |page] [| |per_page]];
    cbn [gin.form_error gin.form_page gin.form_per_page gin.bind_int Page PerPage];
    intros [?|?]; try discriminate;
    repeat (cbn [Page PerPage];
            match goal with
            | |- context [?a <? 1] => destruct (Z.ltb_spec a 1)
            end);
    reflexivity.
Qed.

(** X3. The resolver makes up no value and does not check the defaults:
    each field of the result is the default as given, or the raw value of the
    request, and then that value is at least 1. A field of the result is
    below 1 exactly when it is a default that is below 1. *)
Theorem GetPaginationParamsWithDefault_provenance gc defaultPage defaultPerPage :
  let p := GetPaginationParamsWithDefault gc defaultPage defaultPerPage in
  (Page p = defaultPage \/ (1 <= Page p /\ gin.form_page gc = gin.Int (Page p))) /\
  (PerPage p = defaultPerPage \/
   (1 <= PerPage p /\ gin.form_per_page gc = gin.Int (PerPage p))) /\
  (Page p < 1 <-> defaultPage < 1 /\ Page p = defaultPage) /\
  (PerPage p < 1 <-> defaultPerPage < 1 /\ PerPage p = defaultPerPage).
Proof.
  unfold GetPaginationParamsWithDefault, ShouldBind.
  destruct gc as [req [|] [| |page] [| |per_page]];
    cbn [gin.form_error gin.form_page gin.form_per_page gin.bind_int Page PerPage];
    repeat (cbn [Page PerPage];
            match goal with
            | |- context [?a <? 1] => destruct (Z.ltb_spec a 1)
            end);
    cbn [Page PerPage] in *;
    repeat split; try lia; try (left; reflexivity); try (right; split; [lia|reflexivity]);
    intros; lia.
Qed.

(** ** The query parameters *)

(** The decimal text of an integer reads back as that integer. *)
Lemma Sprintf_d_read (n : Z) :
  NilZero.int_of_string (fmt.Sprintf_d n) = Some (Z.to_int n).
Proof.
  unfold fmt.Sprintf_d. apply NilZero.isi.
  - destruct n as [|p|p]; cbn; try discriminate.
    intros [= H]. exact (DecimalPos.Unsigned.to_uint_nonnil p H).
  - destruct n as [|p|p]; cbn; try discriminate.
    intros [= H]. exact (DecimalPos.Unsigned.to_uint_nonnil p H).
Qed.

Lemma Sprintf_d_inj (n n' : Z) : fmt.Sprintf_d n = fmt.Sprintf_d n' -> n = n'.
Proof.
  intros H. apply DecimalZ.to_int_inj.
  pose proof (Sprintf_d_read n) as Hn. rewrite H, Sprintf_d_read in Hn.
  congruence.
Qed.

(** X4. [PageQueryParams] tells the pairs apart: two maps are equal exactly
    when the page and the page size are. *)
Theorem PageQueryParams_inj (page perPage page' perPage' : Z) :
  PageQueryParams page perPage = PageQueryParams page' perPage' <->
  page = page' /\ perPage = perPage'.
Proof.
  split; [|intros [-> ->]; reflexivity].
  intros H. split; apply Sprintf_d_inj.
  - pose proof (PageQueryParams_page page perPage) as H1.
    rewrite H, PageQueryParams_page in H1. congruence.
  - pose proof (PageQueryParams_per_page page perPage) as H1.
    rewrite H, PageQueryParams_per_page in H1. congruence.
Qed.

(** ** The link builders *)

Lemma append_nil_r (s : string) : s +:+ "" = s.
Proof.
  induction s as [|c s IH]; [reflexivity|].
  change (String c (s +:+ "") = String c s). rewrite IH. reflexivity.
Qed.

Lemma append_assoc (a b c : string) : (a +:+ b) +:+ c = a +:+ b +:+ c.
Proof.
  induction a as [|x a IH]; [reflexivity|].
  change (String x ((a +:+ b) +:+ c) = String x (a +:+ b +:+ c)). rewrite IH. reflexivity.
Qed.

Section Builders.

Context {codec : url.Codec}.

Lemma SetPageQuery_lookup (u : url.URL) (page perPage : Z) (key : string) :
  SetPageQuery u page perPage !! key =
    if decide (key = "per_page") then Some [fmt.Sprintf_d perPage]
    else if decide (key = "page") then Some [fmt.Sprintf_d page]
    else url.Query u !! key.
Proof.
  unfold SetPageQuery, url.Set_.
  destruct (decide (key = "per_page")) as [->|Hper].
  - apply lookup_insert_eq.
  - rewrite lookup_insert_ne by congruence.
    destruct (decide (key = "page")) as [->|Hpage].
    + apply lookup_insert_eq.
    + apply lookup_insert_ne. congruence.
Qed.

Lemma SetPageQuery_agree (u u' : url.URL) (page perPage : Z) :
  (forall key, key <> "page" -> key <> "per_page" ->
               url.Query u !! key = url.Query u' !! key) ->
  SetPageQuery u page perPage = SetPageQuery u' page perPage.
Proof.
  intros H. apply map_eq. intros key. rewrite !SetPageQuery_lookup.
  repeat case_decide; try reflexivity. apply H; assumption.
Qed.

(** X5. [NewPageUrl] gives the link of the page: an absolute URL that is
    never empty, with the scheme from TLS, the host of the request and the
    path of its URL, whose query holds the one decimal value given for [page]
    and for [per_page], whatever values the request had for them, and every
    other parameter of the request as it is. *)
Theorem NewPageUrl_encodes_page (req : http.Request) (page perPage : Z) :
  encodes_page req page perPage (url.String_ (NewPageUrl req page perPage)) /\
  url.String_ (NewPageUrl req page perPage) <> "".
Proof.
  split.
  - exists (SetPageQuery (CopyRequestUrl req) page perPage).
    repeat split.
    + rewrite SetPageQuery_lookup. reflexivity.
    + rewrite SetPageQuery_lookup. reflexivity.
    + intros key Hpage Hper. rewrite SetPageQuery_lookup.
      unfold ParamPage, ParamPerPage in *. repeat case_decide; try congruence.
      reflexivity.
  - apply String_nonempty. cbn. destruct (http.TLS req); reflexivity.
Qed.


(** A URL with no fragment is its form with an empty raw query, followed
    by the raw query: after a [?], unless the query is forced and the [?] is
    there already. *)
Lemma String_query (u : url.URL) (raw_query : string) :
  url.Fragment u = "" ->
  url.String_ (url.with_RawQuery raw_query u)
  = url.String_ (url.with_RawQuery "" u)
    +:+ (if url.ForceQuery u then raw_query
         else if url.nonempty raw_query then "?" +:+ raw_query else "").
Proof.
  intros Hfragment. unfold url.String_, url.with_RawQuery.
  cbn [url.Scheme url.Opaque url.User url.Host url.Path url.RawPath url.OmitHost
       url.ForceQuery url.RawQuery url.Fragment url.RawFragment].
  rewrite Hfragment. cbn [url.nonempty].
  rewrite !append_nil_r.
  destruct (url.ForceQuery u); cbn [orb].
  - rewrite !append_assoc. reflexivity.
  - rewrite append_nil_r, !append_assoc. reflexivity.
Qed.

(** X7. For a request whose URL has no fragment, a page link is the base
    URL of [GetRequestBase] followed by the encoded query: after a [?], or
    directly when the URL of the request has a forced query (the request line
    ended in [?]), in which case the base URL itself ends in [?]; the link
    is the base URL alone when the encoded query is empty. *)
Theorem NewPageUrl_extends_GetRequestBase (req : http.Request) (page perPage : Z) :
  url.Fragment (http.URL req) = "" ->
  url.String_ (NewPageUrl req page perPage)
  = url.String_ (GetRequestBase req)
    +:+ (let raw_query := url.Encode (SetPageQuery (CopyRequestUrl req) page perPage) in
         if url.ForceQuery (http.URL req) then raw_query
         else if url.nonempty raw_query then "?" +:+ raw_query else "").
Proof.
  intros Hfragment. unfold NewPageUrl, GetRequestBase.
  apply (String_query (CopyRequestUrl req)). exact Hfragment.
Qed.

(** X8. [NewPageUrl] does not depend on the pagination parameters the
    request came with, nor on the scheme and the host of the request's own
    URL, which [CopyRequestUrl] overwrites: two requests with the same
    transport and host, whose URLs agree on every other field and whose
    queries agree off [page] and [per_page], get the same link. *)
Theorem NewPageUrl_same_but_page (req req' : http.Request) (page perPage : Z) :
  http.TLS req = http.TLS req' -> http.Host req = http.Host req' ->
  kept_fields (http.URL req) = kept_fields (http.URL req') ->
  same_but_page req req' ->
  NewPageUrl req page perPage = NewPageUrl req' page perPage.
Proof.
  intros HT HH HK HQ. unfold NewPageUrl, CopyRequestUrl.
  rewrite (SetPageQuery_agree _
             (url.with_Scheme (if http.TLS req' then "https" else "http")
                (url.with_Host (http.Host req') (http.URL req'))) page perPage)
    by exact HQ.
  rewrite HT, HH. injection HK as HO HU HP HR HM HF HG HW.
  unfold url.with_RawQuery, url.with_Scheme, url.with_Host.
  cbn [url.Scheme url.Opaque url.User url.Host url.Path url.RawPath url.OmitHost
       url.ForceQuery url.RawQuery url.Fragment url.RawFragment].
  rewrite HO, HU, HP, HR, HM, HF, HG, HW. reflexivity.
Qed.



End Builders.

(** ** A negative page size *)

Lemma wrap_range (z : Z) : GoInt.is_int (GoInt.wrap z).
Proof.
  unfold GoInt.is_int, GoInt.wrap, GoInt.min_int, GoInt.max_int.
  pose proof (Z.mod_pos_bound (z + 2 ^ 63) (2 ^ 64) ltac:(lia)). lia.
Qed.

Lemma to_int_range {impl : GoFloat.Implementation} (x : spec_float) :
  GoInt.is_int (GoFloat.to_int x).
Proof.
  unfold GoFloat.to_int. destruct (GoFloat.trunc x) as [z|]; [|apply wrap_range].
  destruct (Z.leb_spec GoInt.min_int z), (Z.leb_spec z GoInt.max_int); cbn [andb];
    try apply wrap_range.
  split; assumption.
Qed.

Section Negative.

Import GoFloat.

(** The sign of a quotient only tags the rounded magnitude. *)
Lemma div_negative_divisor (mc mp q : positive) (ec ep e : Z) :
  div (S754_finite false mc ec) (S754_finite false mp ep) = S754_finite false q e ->
  div (S754_finite false mc ec) (S754_finite true mp ep) = S754_finite true q e.
Proof.
  unfold div, SFdiv. cbn [xorb].
  destruct (SFdiv_core_binary prec emax (Z.pos mc) ec (Z.pos mp) ep) as [[mz ez] lz].
  unfold binary_round_aux.
  destruct (shr_fexp prec emax mz ez lz) as [mrs' e'].
  destruct (shr_fexp prec emax _ e' loc_Exact) as [mrs'' e''].
  destruct (shr_m mrs'') as [|m|m]; try discriminate.
  destruct (e'' <=? emax - prec); [|discriminate].
  intros [= <- <-]. reflexivity.
Qed.

Context {impl : Implementation}.

Lemma to_int_of_int_neg (p : positive) :
  Z.pos p <= 2 ^ 53 -> to_int (of_int (Z.neg p)) = Z.neg p.
Proof.
  intros Hp. unfold of_int, binary_normalize.
  destruct (binary_round_exact true p Hp) as (m & e & -> & Hr).
  unfold to_int. rewrite (trunc_exact true _ _ _ Hr).
  unfold GoInt.min_int, GoInt.max_int.
  destruct (Z.leb_spec (- 2 ^ 63) (- Z.pos p)); [|lia].
  destruct (Z.leb_spec (- Z.pos p) (2 ^ 63 - 1)); [reflexivity|lia].
Qed.

(** The ceiling of a negative float of moderate size converts to an integer
    that is not positive. *)
Lemma to_int_Ceil_negative (q : positive) (e : Z) :
  Z.pos q < 2 ^ 53 -> e <= 1 ->
  to_int (math.Ceil (S754_finite true q e)) <= 0.
Proof.
  intros Hq He. cbn [math.Ceil].
  destruct (Z.leb_spec 0 e) as [Hpos|Hneg].
  - unfold to_int. cbn [trunc].
    destruct (Z.leb_spec 0 e); [|lia].
    assert (2 ^ e <= 2 ^ 1) by (apply Z.pow_le_mono_r; lia).
    assert (0 < 2 ^ e) by (apply Z.pow_pos_nonneg; lia).
    assert (0 < Z.pos q * 2 ^ e) by lia.
    assert (Z.pos q * 2 ^ e <= Z.pos q * 2 ^ 1) by (apply Z.mul_le_mono_nonneg_l; lia).
    unfold GoInt.min_int, GoInt.max_int.
    destruct (Z.leb_spec (- 2 ^ 63) (- (Z.pos q * 2 ^ e))); [|lia].
    destruct (Z.leb_spec (- (Z.pos q * 2 ^ e)) (2 ^ 63 - 1)); cbn [andb]; lia.
  - change (- Z.neg q) with (Z.pos q).
    assert (0 < 2 ^ (- e)) by (apply Z.pow_pos_nonneg; lia).
    assert (0 <= Z.pos q / 2 ^ (- e)) by (apply Z.div_pos; lia).
    assert (Z.pos q / 2 ^ (- e) <= Z.pos q) by (apply Z.div_le_upper_bound; nia).
    destruct (Z.pos q / 2 ^ (- e)) as [|z|z]; [reflexivity| |lia].
    change (- Z.pos z) with (Z.neg z). cbn [Z.eqb].
    rewrite to_int_of_int_neg by lia. lia.
Qed.

(** A negative page size: the quotient is negative and [li] is not
    positive. *)
Lemma last_index_negative (c p : Z) :
  0 < c < 2 ^ 53 -> GoInt.min_int <= p < 0 -> last_index c p <= 0.
Proof.
  intros Hc Hp. unfold GoInt.min_int in Hp. unfold last_index.
  destruct c as [|c|c]; try lia.
  destruct (of_int_exact c) as (mc & ec & -> & Hrc); [lia|].
  destruct (of_int_finite p) as (mp & ep & -> & Hdp & Hep); [lia|lia|].
  destruct (Z.ltb_spec p 0); [|lia].
  pose proof (exact_repr_below _ _ _ Hrc ltac:(lia)) as Hec0.
  destruct Hrc as (Hdc & Hec & _).
  destruct (SFdiv_round mc mp ec ep Hdc Hdp ltac:(lia))
    as (q & e & k & m1 & m2 & Hdiv & Hq & Hk & He & _).
  rewrite (div_negative_divisor _ _ _ _ _ _ Hdiv).
  pose proof (digits2_pos_bounds q) as Hb. rewrite Hq in Hb.
  apply to_int_Ceil_negative; lia.
Qed.

End Negative.

(** ** The pages of a collection *)

(** The first [n] pages hold the first [n * perPage] rows. *)
Lemma pages_rows_take {I : Type} (perPage : Z) (all : list I) (n : nat) :
  1 <= perPage ->
  pages_rows perPage all n = take (n * Z.to_nat perPage) all.
Proof.
  intros Hper. unfold pages_rows. induction n as [|n IH].
  - reflexivity.
  - rewrite seq_S, fmap_app, concat_app, IH. cbn [fmap list_fmap List.concat].
    rewrite app_nil_r. unfold page_rows. cbn [Page PerPage].
    replace (Z.to_nat ((Z.of_nat (1 + n) - 1) * perPage))
      with (n * Z.to_nat perPage)%nat by nia.
    rewrite take_take_drop. f_equal. lia.
Qed.

Section Pages.

Context {Ctx Err : Type} {codec : url.Codec} {impl : GoFloat.Implementation}.
Context {I T : Type} {pq : PQ Ctx Err I T}.

Implicit Types (gc : gin.Context) (qc : Ctx) (params : PaginatedParams) (w : World T).

Ltac int_range := unfold GoInt.is_int, GoInt.min_int, GoInt.max_int in *; lia.

Ltac step := cbv beta iota zeta; cbn [query calls divideByZero fst snd].

(** X11. The calls [GetPage] makes on the query: the count, once and first;
    nothing more when the count fails or answers 0; otherwise [Offset],
    [Limit] with the page size and [All], once each and in this order. The
    fetch is made exactly when the count succeeds with a non-zero value, and
    the offset asked for is one less than [From], up to wrap-around. *)
Theorem GetPage_calls gc qc params w r w' count cerr q :
  Count qc (query w) = (count, cerr, q) ->
  GetPage gc qc params w = (r, w') ->
  calls w' = calls w ++ call_log params count cerr /\
  (CallAll ∈ call_log params count cerr <-> cerr = None /\ count <> 0) /\
  (forall l, r = Ok l -> Total l <> 0 ->
     exists o,
       call_log params count cerr
       = [CallCount; CallOffset o; CallLimit (PerPage' l); CallAll] /\
       From l = GoInt.add o 1).
Proof.
  intros HC HG.
  destruct (GetPage_paths gc qc params w) as (count' & cerr' & q0 & HC' & Hpath).
  rewrite HC in HC'. injection HC' as <- <- <-.
  unfold call_log. destruct cerr as [e|].
  - rewrite Hpath in HG. injection HG as <- <-. split; [reflexivity|].
    split; [|intros l [=]].
    split; [|intros [? _]; discriminate].
    intros Hin. apply list_elem_of_singleton in Hin. discriminate.
  - destruct (decide (count = 0)) as [->|Hne].
    + rewrite Hpath in HG. injection HG as <- <-. split; [reflexivity|].
      split; [|intros l [= <-] Hl; cbn in Hl; contradiction].
      split; [|intros [_ ?]; contradiction].
      intros Hin. apply list_elem_of_singleton in Hin. discriminate.
    + destruct (Z.eqb_spec count 0) as [?|_]; [contradiction|].
      destruct Hpath as (rows & ferr & q' & HA & Hpath).
      split; [|split].
      * destruct ferr as [e|]; rewrite Hpath in HG; injection HG as _ <-; reflexivity.
      * split; [intros _; split; [reflexivity|assumption]|].
        intros _. unfold fetch_log. do 3 (apply elem_of_cons; right).
        apply elem_of_cons. left. reflexivity.
      * intros l -> _. destruct ferr as [e|]; [congruence|].
        rewrite Hpath in HG. injection HG as <- _.
        eexists. split; reflexivity.
Qed.

Lemma windowed_offset params (q : T) :
  1 <= Page params -> 1 <= PerPage params ->
  Page params * PerPage params <= GoInt.max_int ->
  windowed params q = Limit (PerPage params) (Offset ((Page params - 1) * PerPage params) q).
Proof.
  intros Hpage Hper Hprod.
  assert (Page params <= Page params * PerPage params) by nia.
  assert (0 <= (Page params - 1) * PerPage params < Page params * PerPage params) by nia.
  unfold windowed, GoInt.mul, GoInt.sub.
  rewrite (wrap_id (Page params - 1)) by int_range.
  rewrite (wrap_id ((Page params - 1) * PerPage params)) by int_range.
  reflexivity.
Qed.

(** X12. With a query that answers as a collection [all] does (the count
    is its length, the fetch after [Offset] and [Limit] is that slice of
    it), [Data] is the slice of the page, it has [To - From + 1] rows (none
    when the page is beyond the collection), and [From] to [To] are the
    1-based positions of its rows in the collection. The parameters are
    resolved, [page * per_page] is within [int] and the total is below
    [2 ^ 53]. *)
Theorem GetPage_rows_window gc qc params w (all : list I) q q' :
  1 <= Page params -> 1 <= PerPage params ->
  0 < Z.of_nat (List.length all) < 2 ^ 53 ->
  Page params * PerPage params <= GoInt.max_int ->
  Count qc (query w) = (Z.of_nat (List.length all), None, q) ->
  All qc (Limit (PerPage params) (Offset ((Page params - 1) * PerPage params) q))
  = (page_rows params all, None, q') ->
  exists l w',
    GetPage gc qc params w = (Ok l, w') /\
    Data l = page_rows params all /\
    Z.of_nat (List.length (Data l)) = Z.max 0 (To l - From l + 1) /\
    (forall (i : nat) (row : I),
       Data l !! i = Some row <->
       all !! (Z.to_nat (From l - 1) + i)%nat = Some row /\ From l + Z.of_nat i <= To l).
Proof.
  intros Hpage Hper Hcount Hprod HC HA.
  rewrite <- windowed_offset in HA by assumption.
  assert (Z.of_nat (List.length all) <> 0) as Hne by lia.
  eexists _, _. split; [exact (GetPage_page gc qc params w _ _ _ _ HC Hne HA)|].
  rewrite page_list_From, page_list_To by assumption.
  cbn [Data page_list].
  assert (Page params <= Page params * PerPage params) by nia.
  assert (0 <= (Page params - 1) * PerPage params) by nia.
  assert (Page params * PerPage params
          = (Page params - 1) * PerPage params + PerPage params) as Hsplit by ring.
  set (off := (Page params - 1) * PerPage params) in *.
  split; [reflexivity|]. split.
  - unfold page_rows. fold off. rewrite length_take, length_drop. lia.
  - intros i row. unfold page_rows. fold off.
    replace (off + 1 - 1) with off by lia.
    rewrite lookup_take_Some, lookup_drop. split.
    + intros [Hrow Hi]. split; [exact Hrow|].
      apply lookup_lt_Some in Hrow. lia.
    + intros [Hrow Hi]. split; [exact Hrow|]. lia.
Qed.

(** X13. [LastPage] is the number of pages the collection takes: for a
    collection [all] of [Total] rows, with the total below [2 ^ 53] and an
    [int] page size of at least 1, the pages 1 to [LastPage], one after the
    other, are the collection; the last of them is not empty; and no fewer
    pages hold it all. *)
Theorem GetPage_pages_cover gc qc params w l w' (all : list I) :
  GetPage gc qc params w = (Ok l, w') ->
  Total l = Z.of_nat (List.length all) ->
  0 < Total l < 2 ^ 53 -> 1 <= PerPage params <= GoInt.max_int ->
  pages_rows (PerPage params) all (Z.to_nat (LastPage l)) = all /\
  page_rows {| Page := LastPage l; PerPage := PerPage params |} all <> [] /\
  (forall n : nat, (n < Z.to_nat (LastPage l))%nat ->
     pages_rows (PerPage params) all n <> all).
Proof.
  intros HG Hall Htotal Hper.
  destruct (GetPage_Ok_inv _ _ _ _ _ _ HG) as [[Hz _]|[_ [rows Hl]]]; [lia|].
  assert (LastPage l = Z.max 1 (ceil_div (Total l) (PerPage params))) as ->.
  { set (count := Total l) in *. rewrite Hl. clearbody count.
    apply page_list_LastPage; lia. }
  pose proof (ceil_div_spec (Total l) (PerPage params) ltac:(lia)) as HN.
  set (N := ceil_div (Total l) (PerPage params)) in *.
  assert (1 <= N).
  { destruct (Z.leb_spec 1 N); [done|].
    assert (N * PerPage params <= 0 * PerPage params)
      by (apply Z.mul_le_mono_nonneg_r; lia).
    lia. }
  rewrite Z.max_r by lia.
  assert (0 <= (N - 1) * PerPage params) by (apply Z.mul_nonneg_nonneg; lia).
  split; [|split].
  - rewrite pages_rows_take by lia. apply take_ge. nia.
  - unfold page_rows. cbn [Page PerPage]. intros Hnil.
    apply (f_equal List.length) in Hnil. rewrite length_take, length_drop in Hnil.
    cbn [List.length] in Hnil. lia.
  - intros n Hn Heq. rewrite pages_rows_take in Heq by lia.
    apply (f_equal List.length) in Heq. rewrite length_take in Heq.
    assert (Z.of_nat n * PerPage params <= (N - 1) * PerPage params)
      by (apply Z.mul_le_mono_nonneg_r; lia).
    nia.
Qed.

(** X14. The size of a page, for resolved parameters, a total below
    [2 ^ 53] and [page * per_page] within [int]: a page before the last one
    is full; the last page ends at [Total] and has between 1 and [per_page]
    rows; a page beyond the last one has [To = Total] below [From]. *)
Theorem GetPage_page_sizes gc qc params w l w' :
  GetPage gc qc params w = (Ok l, w') ->
  1 <= Page params -> 1 <= PerPage params ->
  0 < Total l < 2 ^ 53 -> Page params * PerPage params <= GoInt.max_int ->
  (Page params < LastPage l -> To l - From l + 1 = PerPage params) /\
  (Page params = LastPage l ->
   To l = Total l /\ 1 <= To l - From l + 1 <= PerPage params) /\
  (LastPage l < Page params -> To l = Total l /\ To l < From l).
Proof.
  intros HG Hpage Hper Htotal Hprod.
  destruct (GetPage_Ok_inv _ _ _ _ _ _ HG) as [[Hz _]|[_ [rows Hl]]]; [lia|].
  set (count := Total l) in *. rewrite Hl. clearbody count. clear Hl.
  assert (PerPage params <= Page params * PerPage params) by nia.
  rewrite page_list_From, page_list_To, page_list_LastPage by (assumption || lia).
  pose proof (ceil_div_spec count (PerPage params) ltac:(lia)) as HN.
  set (N := ceil_div count (PerPage params)) in *.
  assert (1 <= N).
  { destruct (Z.leb_spec 1 N); [done|].
    assert (N * PerPage params <= 0 * PerPage params)
      by (apply Z.mul_le_mono_nonneg_r; lia).
    lia. }
  rewrite Z.max_r by lia.
  assert (Page params * PerPage params
          = (Page params - 1) * PerPage params + PerPage params) as Hsplit by ring.
  repeat split.
  - intros Hlt.
    assert (Page params * PerPage params <= (N - 1) * PerPage params)
      by (apply Z.mul_le_mono_nonneg_r; lia).
    lia.
  - subst. lia.
  - subst. lia.
  - subst. lia.
  - assert (N * PerPage params <= (Page params - 1) * PerPage params)
      by (apply Z.mul_le_mono_nonneg_r; lia).
    lia.
  - assert (N * PerPage params <= (Page params - 1) * PerPage params)
      by (apply Z.mul_le_mono_nonneg_r; lia).
    lia.
Qed.

(** X15. The first and the last link of every returned list: the first
    link is never empty and is the link of page 1; the last link is empty
    exactly when [LastPage] is 1 and is otherwise the link of page
    [LastPage]. For a total below [2 ^ 53] and an [int] page size of at least
    1 the last link is empty exactly when the total is at most the page
    size. *)
Theorem GetPage_first_last_links gc qc params w l w' :
  GetPage gc qc params w = (Ok l, w') ->
  FirstPageUrl l <> "" /\
  encodes_page (gin.Request gc) 1 (PerPage params) (FirstPageUrl l) /\
  (LastPageUrl l = "" <-> LastPage l = 1) /\
  (1 < LastPage l ->
   encodes_page (gin.Request gc) (LastPage l) (PerPage params) (LastPageUrl l)) /\
  (0 < Total l < 2 ^ 53 -> 1 <= PerPage params <= GoInt.max_int ->
   (LastPageUrl l = "" <-> Total l <= PerPage params)).
Proof.
  intros HG.
  destruct (GetPage_Ok_inv _ _ _ _ _ _ HG) as [[Hz ->]|[Hne [rows Hl]]].
  - cbn. split; [apply UrlWithPage_nonempty|]. split; [apply UrlWithPage_encodes_page|].
    repeat split; try reflexivity; lia.
  - set (count := Total l) in *. rewrite Hl. clearbody count. clear Hl.
    split; [apply UrlWithPage_nonempty|]. split; [apply UrlWithPage_encodes_page|].
    assert (LastPageUrl (page_list (gin.Request gc) params count rows) = "" <->
            LastPage (page_list (gin.Request gc) params count rows) = 1) as Hiff.
    { cbn. unfold last_page.
      destruct (Z.leb_spec (last_index count (PerPage params)) 1) as [Hle|Hgt].
      - split; reflexivity.
      - split; [|lia]. intros Hempty. contradict Hempty. apply UrlWithPage_nonempty. }
    split; [exact Hiff|]. split.
    + cbn. unfold last_page.
      destruct (Z.leb_spec (last_index count (PerPage params)) 1) as [Hle|Hgt]; [lia|].
      intros _. apply UrlWithPage_encodes_page.
    + intros Hcount Hper. rewrite Hiff.
      rewrite page_list_LastPage by assumption.
      pose proof (ceil_div_spec count (PerPage params) ltac:(lia)) as HN.
      split; intros H.
      * assert (ceil_div count (PerPage params) <= 1) as Hle by lia.
        assert (ceil_div count (PerPage params) * PerPage params <= 1 * PerPage params)
          by (apply Z.mul_le_mono_nonneg_r; lia).
        lia.
      * rewrite ceil_div_small by lia. reflexivity.
Qed.

(** X16. Links that meet: for a non-empty collection the previous link of
    page 2 is the first link, and the next link of the page before
    [LastPage] is the last link. *)
Theorem GetPage_adjacent_links gc qc params w l w' :
  GetPage gc qc params w = (Ok l, w') ->
  Total l <> 0 ->
  (Page params = 2 -> PrevPageUrl l = FirstPageUrl l) /\
  (Page params + 1 = LastPage l -> 1 < LastPage l -> NextPageUrl l = LastPageUrl l).
Proof.
  intros HG Hne.
  destruct (GetPage_Ok_inv _ _ _ _ _ _ HG) as [[Hz _]|[_ [rows Hl]]]; [contradiction|].
  set (count := Total l) in *. rewrite Hl. clearbody count. clear Hl.
  cbn. unfold last_page. split.
  - intros ->. reflexivity.
  - destruct (Z.leb_spec (last_index count (PerPage params)) 1) as [Hle|Hgt]; [lia|].
    intros Hnext _.
    pose proof (to_int_range
                  (math.Ceil (GoFloat.div (GoFloat.of_int count)
                                          (GoFloat.of_int (PerPage params))))) as Hr.
    fold (last_index count (PerPage params)) in Hr.
    unfold GoInt.add. rewrite wrap_id by (rewrite Hnext; exact Hr).
    rewrite Hnext.
    destruct (Z.ltb_spec (last_index count (PerPage params))
                         (last_index count (PerPage params))); [lia|reflexivity].
Qed.

(** X17. In the first copy of the package, for a request whose URL has no
    fragment: [Path] is the string of [GetRequestBase], whatever the
    parameters, and every link of a returned list that is not empty is
    [Path] followed by a raw query, after a [?], or directly when the URL of
    the request has a forced query and [Path] itself ends in [?]. *)
Theorem Rev1_GetPage_links_extend_Path gc qc params w l w' :
  Rev1.GetPage gc qc params w = (Ok l, w') ->
  url.Fragment (http.URL (gin.Request gc)) = "" ->
  Path l = url.String_ (GetRequestBase (gin.Request gc)) /\
  forall link,
    link ∈ [FirstPageUrl l; LastPageUrl l; NextPageUrl l; PrevPageUrl l] ->
    link = "" \/
    extends_path (url.ForceQuery (http.URL (gin.Request gc))) (Path l) link.
Proof.
  intros HG Hfragment.
  set (force := url.ForceQuery (http.URL (gin.Request gc))).
  set (base := url.String_ (GetRequestBase (gin.Request gc))).
  assert (forall page,
            extends_path force base
              (url.String_ (NewPageUrl (gin.Request gc) page (PerPage params)))) as Hlink.
  { intros page.
    exists (url.Encode (SetPageQuery (CopyRequestUrl (gin.Request gc)) page (PerPage params))).
    unfold NewPageUrl, GetRequestBase, base.
    apply (String_query (CopyRequestUrl (gin.Request gc))). exact Hfragment. }
  assert (forall link, link ∈ @nil string -> link = "" \/ extends_path force base link)
    as Hnil.
  { intros link Hin. apply elem_of_nil in Hin. contradiction. }
  assert (forall (b : bool) page links,
            (forall link, link ∈ links -> link = "" \/ extends_path force base link) ->
            forall link,
              link ∈ (if b then ""
                      else url.String_ (NewPageUrl (gin.Request gc) page (PerPage params)))
                     :: links ->
              link = "" \/ extends_path force base link) as Hcons.
  { intros b page links IH link Hin. apply elem_of_cons in Hin as [->|Hin]; [|auto].
    destruct b; [left; reflexivity|right; apply Hlink]. }
  revert HG.
  unfold Rev1.GetPage, bind, ret, query_Count, query_Offset, query_Limit, query_All,
    float_div; step.
  destruct (Count qc (query w)) as [[count cerr] q]. step.
  destruct cerr as [e|]; [discriminate|].
  destruct (0 =? count).
  - intros [= <- _]. cbn. split; [reflexivity|].
    apply (Hcons false 1), (Hcons true 1), (Hcons true 1), (Hcons true 1), Hnil.
  - step. destruct (All qc _) as [[rows ferr] q']. step.
    destruct ferr as [e|]; [discriminate|]. step.
    destruct (_ <=? 1); step;
      destruct (_ <? GoInt.add _ _); step;
      destruct (GoInt.sub _ _ <? 1); step;
      intros [= <- _]; cbn; (split; [reflexivity|]);
      first [ apply (Hcons false 1), (Hcons true 1), (Hcons true 1), (Hcons true 1), Hnil
            | apply (Hcons false 1), (Hcons true 1), (Hcons true 1), (Hcons false), Hnil
            | apply (Hcons false 1), (Hcons true 1), (Hcons false), (Hcons true 1), Hnil
            | apply (Hcons false 1), (Hcons true 1), (Hcons false), (Hcons false), Hnil
            | apply (Hcons false 1), (Hcons false), (Hcons true 1), (Hcons true 1), Hnil
            | apply (Hcons false 1), (Hcons false), (Hcons true 1), (Hcons false), Hnil
            | apply (Hcons false 1), (Hcons false), (Hcons false), (Hcons true 1), Hnil
            | apply (Hcons false 1), (Hcons false), (Hcons false), (Hcons false), Hnil ].
Qed.

(** X18. A negative page size is not refused: for a total below [2 ^ 53]
    the quotient is negative, [li] is floored to 1, so [LastPage] is 1 and
    the last link is empty; the next link is empty for every page from 1
    on. *)
Theorem GetPage_negative_per_page gc qc params w l w' :
  GetPage gc qc params w = (Ok l, w') ->
  0 < Total l < 2 ^ 53 -> GoInt.min_int <= PerPage params < 0 ->
  LastPage l = 1 /\ LastPageUrl l = "" /\
  (1 <= Page params < GoInt.max_int -> NextPageUrl l = "").
Proof.
  intros HG Htotal Hper.
  destruct (GetPage_Ok_inv _ _ _ _ _ _ HG) as [[Hz _]|[_ [rows Hl]]]; [lia|].
  set (count := Total l) in *. rewrite Hl. clearbody count. clear Hl.
  pose proof (last_index_negative count (PerPage params) Htotal Hper) as Hli.
  cbn. unfold last_page.
  destruct (Z.leb_spec (last_index count (PerPage params)) 1); [|lia].
  repeat split.
  intros Hpage. unfold GoInt.add. rewrite wrap_id by int_range.
  destruct (Z.ltb_spec 1 (Page params + 1)); [reflexivity|lia].
Qed.

(** X26. A page size of 0 on a non-empty collection: [From] is 1 and [To]
    is 0 whatever the page, and [li] is the conversion of +Inf, which the
    language leaves to the implementation, floored at 1. *)
Theorem GetPage_zero_per_page gc qc params w l w' :
  GetPage gc qc params w = (Ok l, w') ->
  PerPage params = 0 -> 0 < Total l <= GoInt.max_int ->
  From l = 1 /\ To l = 0 /\
  LastPage l = Z.max 1 (GoInt.wrap (GoFloat.unrepresentable (S754_infinity false))).
Proof.
  intros HG Hper Htotal.
  destruct (GetPage_Ok_inv _ _ _ _ _ _ HG) as [[Hz _]|[_ [rows Hl]]]; [lia|].
  set (count := Total l) in *. rewrite Hl. clearbody count. clear Hl.
  cbn. rewrite Hper. unfold GoInt.max_int in Htotal.
  unfold to_index, last_page, last_index, GoInt.add, GoInt.mul.
  rewrite !Z.mul_0_r. change (GoInt.wrap 0) with 0. change (GoInt.wrap (0 + 1)) with 1.
  change (GoFloat.of_int 0) with (S754_zero false).
  destruct (of_int_finite count) as (mc & ec & -> & _); [lia|lia|].
  destruct (Z.ltb_spec count 0); [lia|].
  split; [reflexivity|]. split; [reflexivity|].
  cbn. set (li := GoFloat.to_int (S754_infinity false)).
  change (GoInt.wrap (GoFloat.unrepresentable (S754_infinity false))) with li.
  destruct (Z.leb_spec li 1); lia.
Qed.

(** X25. [GetPage] on the parameters [GetPaginationParams] resolves, for
    any request: the current page, the page size and the last page of the
    returned list are at least 1, the first link is not empty, and the
    previous link is empty exactly on page 1. *)
Theorem GetPage_of_GetPaginationParams gc qc w l w' :
  GetPage gc qc (GetPaginationParams gc) w = (Ok l, w') ->
  Page (GetPaginationParams gc) <= GoInt.max_int ->
  1 <= CurrentPage l /\ 1 <= PerPage' l /\ 1 <= LastPage l /\
  FirstPageUrl l <> "" /\
  (PrevPageUrl l = "" <-> CurrentPage l = 1).
Proof.
  intros HG Hmax.
  destruct (GetPaginationParams_positive gc) as [Hpage Hper].
  set (params := GetPaginationParams gc) in *.
  destruct (GetPage_Ok_inv _ _ _ _ _ _ HG) as [[Hz ->]|[Hne [rows ->]]].
  - cbn. repeat split; try lia. apply UrlWithPage_nonempty.
  - cbn. split; [exact Hpage|]. split; [exact Hper|]. split.
    { unfold last_page. destruct (Z.leb_spec (last_index (Total l) (PerPage params)) 1); lia. }
    split; [apply UrlWithPage_nonempty|].
    unfold GoInt.sub. rewrite wrap_id by int_range.
    destruct (Z.ltb_spec (Page params - 1) 1).
    + split; [lia|reflexivity].
    + split; [|lia]. intros Hempty. contradict Hempty. apply UrlWithPage_nonempty.
Qed.

(** ** More on the mapped variant *)

(** X23. With the mapper that returns its row, [GetPageMapped] is
    [GetPage]. *)
Theorem GetPageMapped_identity gc qc params w :
  GetPageMapped gc qc params (fun row _ => row) w = GetPage gc qc params w.
Proof.
  unfold GetPageMapped, bind, ret.
  destruct (GetPage gc qc params w) as [[l|e] w0]; [|reflexivity].
  change (fun (i : nat) (row : I) => row) with (@const (I -> I) nat id).
  rewrite imap_const, list_fmap_id. destruct l; reflexivity.
Qed.


End Pages.

(** * Runs on the fixtures *)

(** The example of the specification: total 25, per_page 10, page 2. *)
Example run_25_10_2 :
  (Fixtures.run "" (Fixtures.table 25) 2 10).1 =
    Ok {| Total := 25; PerPage' := 10; CurrentPage := 2; LastPage := 3;
          FirstPageUrl := "http://example.com/items?page=1&per_page=10";
          LastPageUrl := "http://example.com/items?page=3&per_page=10";
          NextPageUrl := "http://example.com/items?page=3&per_page=10";
          PrevPageUrl := "http://example.com/items?page=1&per_page=10";
          Path := "http://example.com/items";
          From := 11; To := 20; Data := [11; 12; 13; 14; 15; 16; 17; 18; 19; 20] |}.
Proof. vm_compute. reflexivity. Qed.

(** The example of the specification: total 5, per_page 10, page 1. *)
Example run_5_10_1 :
  (Fixtures.run "" (Fixtures.table 5) 1 10).1 =
    Ok {| Total := 5; PerPage' := 10; CurrentPage := 1; LastPage := 1;
          FirstPageUrl := "http://example.com/items?page=1&per_page=10";
          LastPageUrl := ""; NextPageUrl := ""; PrevPageUrl := "";
          Path := "http://example.com/items";
          From := 1; To := 5; Data := [1; 2; 3; 4; 5] |}.
Proof. vm_compute. reflexivity. Qed.

(** The other query parameters of the request are kept, and an earlier
    [page] is overwritten. *)
Example run_keeps_query :
  NextPageUrl <$> result_list (Fixtures.run "q=a+b&page=7" (Fixtures.table 25) 2 10).1
  = Some "http://example.com/items?page=3&per_page=10&q=a+b".
Proof. vm_compute. reflexivity. Qed.

(** A failing count is returned as it is, and nothing is fetched. *)
Example run_count_fails :
  Fixtures.run ""
    {| Fixtures.table_size := 0; Fixtures.offset := 0; Fixtures.limit := 0;
       Fixtures.count_error := Some "timeout"; Fixtures.all_error := None |} 2 10
  = (Fail "timeout",
     {| query := {| Fixtures.table_size := 0; Fixtures.offset := 0; Fixtures.limit := 0;
                    Fixtures.count_error := Some "timeout"; Fixtures.all_error := None |};
        calls := [CallCount]; divideByZero := false |}).
Proof. vm_compute. reflexivity. Qed.

(** A page size of 0 on amd64: the quotient is +Inf, its conversion is the
    least [int], and the last page is floored to 1. *)
Example run_per_page_0 :
  (fun r => (LastPage <$> result_list r.1, divideByZero r.2))
    (Fixtures.run "" (Fixtures.table 5) 3 0)
  = (Some 1, true).
Proof. vm_compute. reflexivity. Qed.

(** The example of the specification for the resolver. *)
Example resolve_0_minus_5 :
  GetPaginationParamsWithDefault (Fixtures.context "" (gin.Int 0) (gin.Int (-5))) 1 10
  = {| Page := 1; PerPage := 10 |}.
Proof. reflexivity. Qed.

(** C1, as stated, fails beyond the last page: page 3 of 5 rows, 10 per page,
    has [From = 21] above [To = 5]. *)
Lemma GetPage_window_beyond_last_page :
  exists l w',
    Fixtures.run "" (Fixtures.table 5) 3 10 = (Ok l, w') /\
    1 <= 3 /\ 1 <= 10 /\ 0 < Total l /\
    From l = 21 /\ To l = 5 /\ ~ From l <= To l.
Proof.
  eexists _, _. split; [vm_compute; reflexivity|].
  cbn. repeat split; lia.
Qed.

(** C4, as stated, fails beyond the last page: the same run has
    [CurrentPage = 3] above [LastPage = 1]. *)
Lemma CurrentPage_not_clamped :
  exists l w',
    Fixtures.run "" (Fixtures.table 5) 3 10 = (Ok l, w') /\
    CurrentPage l = 3 /\ LastPage l = 1 /\ ~ CurrentPage l <= LastPage l.
Proof.
  eexists _, _. split; [vm_compute; reflexivity|].
  cbn. repeat split; lia.
Qed.

(** C5, as stated, fails when another parameter of the request does not
    parse: the raw [page] and [per_page] are valid, the binding reports the
    error of the form, and the resolver returns the defaults. *)
Lemma GetPaginationParamsWithDefault_discards_valid :
  gin.form_page (Fixtures.context "page=5&per_page=20&x=%zz" (gin.Int 5) (gin.Int 20))
  = gin.Int 5 /\
  gin.form_per_page (Fixtures.context "page=5&per_page=20&x=%zz" (gin.Int 5) (gin.Int 20))
  = gin.Int 20 /\
  1 <= 5 /\ 1 <= 20 /\
  GetPaginationParamsWithDefault
    (Fixtures.context "page=5&per_page=20&x=%zz" (gin.Int 5) (gin.Int 20)) 1 10
  = {| Page := 1; PerPage := 10 |} /\
  GetPaginationParamsWithDefault
    (Fixtures.context "page=5&per_page=20&x=%zz" (gin.Int 5) (gin.Int 20)) 1 10
  <> {| Page := 5; PerPage := 20 |}.
Proof.
  split; [reflexivity|]. split; [reflexivity|]. split; [lia|]. split; [lia|].
  split; [vm_compute; reflexivity|]. vm_compute. discriminate.
Qed.

(** C2 at a total [float64] does not hold exactly: [2 ^ 53 + 1] rows, one
    per page, give [LastPage = 2 ^ 53], one less than
    [max 1 (ceil (total / per_page))]. *)
Theorem LastPage_rounded_total :
  LastPage <$> result_list (Fixtures.run "" (Fixtures.table (2 ^ 53 + 1)) 1 1).1
  = Some (2 ^ 53) /\
  Z.max 1 (ceil_div (2 ^ 53 + 1) 1) = 2 ^ 53 + 1.
Proof. split; vm_compute; reflexivity. Qed.

(** C6 at the greatest page, which the resolver lets through: [page + 1]
    wraps around to the least [int], which is not above [LastPage], so the
    next link is not empty although the page is at or beyond the last page. *)
Theorem NextPageUrl_at_max_int :
  GetPaginationParams (Fixtures.context "" (gin.Int GoInt.max_int) (gin.Int 10))
  = {| Page := GoInt.max_int; PerPage := 10 |} /\
  exists l w',
    Fixtures.run "" (Fixtures.table 5) GoInt.max_int 10 = (Ok l, w') /\
    0 < Total l /\ LastPage l <= GoInt.max_int /\
    NextPageUrl l = "http://example.com/items?page=-9223372036854775808&per_page=10".
Proof.
  split; [reflexivity|].
  eexists _, _. split; [vm_compute; reflexivity|].
  cbn. repeat split; vm_compute; congruence.
Qed.

(** * The theorems at concrete inputs *)

Section Witnesses.

#[local] Existing Instance Fixtures.codec.
#[local] Existing Instance GoFloat.amd64.
#[local] Existing Instance Fixtures.Table_PQ.

Lemma GetPage_empty_collection_witness :
  Count tt (Fixtures.table 0) = (0, None, Fixtures.table 0) /\
  exists l,
    Fixtures.run "" (Fixtures.table 0) 4 10
    = (Ok l, after (Fixtures.world (Fixtures.table 0)) (Fixtures.table 0) [CallCount] false) /\
    CurrentPage l = 1 /\ LastPage l = 1 /\ From l = 0 /\ To l = 0 /\ Data l = [] /\
    LastPageUrl l = "" /\ NextPageUrl l = "" /\ PrevPageUrl l = "" /\
    FirstPageUrl l <> "" /\ encodes_page (Fixtures.request "") 1 10 (FirstPageUrl l).
Proof.
  split; [reflexivity|].
  apply (GetPage_empty_collection
           (Fixtures.context "" (gin.Int 4) (gin.Int 10)) tt
           {| Page := 4; PerPage := 10 |}
           (Fixtures.world (Fixtures.table 0)) (Fixtures.table 0)).
  reflexivity.
Defined.

Lemma GetPage_current_page_witness :
  exists l w',
    Fixtures.run "" (Fixtures.table 5) 3 10 = (Ok l, w') /\
    1 <= LastPage l /\
    CurrentPage l = (if Total l =? 0 then 1 else 3) /\
    (1 <= 3 -> 1 <= CurrentPage l).
Proof.
  eexists _, _. split; [vm_compute; reflexivity|].
  eapply (GetPage_current_page
           (Fixtures.context "" (gin.Int 3) (gin.Int 10)) tt
           {| Page := 3; PerPage := 10 |}
           (Fixtures.world (Fixtures.table 5))).
  vm_compute. reflexivity.
Defined.

Lemma GetPage_window_witness :
  exists l w',
    Fixtures.run "" (Fixtures.table 25) 2 10 = (Ok l, w') /\
    1 <= 2 /\ 1 <= 10 /\ 0 < Total l < 2 ^ 53 /\ 2 * 10 <= GoInt.max_int /\
    From l = (2 - 1) * 10 + 1 /\
    To l = Z.min (2 * 10) (Total l) /\
    (From l <= To l <-> (2 - 1) * 10 < Total l).
Proof.
  eexists _, _. split; [vm_compute; reflexivity|].
  split; [lia|]. split; [lia|]. split; [vm_compute; split; reflexivity|].
  split; [vm_compute; congruence|].
  apply (GetPage_window
           (Fixtures.context "" (gin.Int 2) (gin.Int 10)) tt
           {| Page := 2; PerPage := 10 |}
           (Fixtures.world (Fixtures.table 25)) _
           (Fixtures.run "" (Fixtures.table 25) 2 10).2);
    vm_compute; try split; congruence.
Defined.

Lemma PrevPageUrl_iff_witness :
  exists l w',
    Fixtures.run "" (Fixtures.table 25) 2 10 = (Ok l, w') /\
    0 < Total l /\ GoInt.min_int < 2 <= GoInt.max_int /\
    (PrevPageUrl l = "" <-> 2 <= 1) /\
    (1 < 2 -> encodes_page (Fixtures.request "") (2 - 1) 10 (PrevPageUrl l)).
Proof.
  eexists _, _. split; [vm_compute; reflexivity|].
  split; [vm_compute; reflexivity|].
  split; [vm_compute; split; congruence|].
  apply (PrevPageUrl_iff
           (Fixtures.context "" (gin.Int 2) (gin.Int 10)) tt
           {| Page := 2; PerPage := 10 |}
           (Fixtures.world (Fixtures.table 25)) _
           (Fixtures.run "" (Fixtures.table 25) 2 10).2);
    vm_compute; try split; congruence.
Defined.

Lemma GetPage_error_iff_witness :
  exists r w',
    Count tt Fixtures.broken = (25, None, Fixtures.broken) /\
    All tt (windowed {| Page := 2; PerPage := 10 |} Fixtures.broken)
    = ([], Some "connection lost", windowed {| Page := 2; PerPage := 10 |} Fixtures.broken) /\
    Fixtures.run "" Fixtures.broken 2 10 = (r, w') /\
    (forall e, r = Fail e <->
               None = Some e \/ (@None string = None /\ 25 <> 0 /\ Some "connection lost" = Some e)) /\
    (is_Some (result_err r) -> result_list r = None) /\
    (is_Some (@None string) ->
     calls w' = calls (Fixtures.world Fixtures.broken) ++ [CallCount] /\ query w' = Fixtures.broken).
Proof.
  eexists _, _. do 3 (split; [vm_compute; reflexivity|]).
  eapply (GetPage_error_iff
           (Fixtures.context "" (gin.Int 2) (gin.Int 10)) tt
           {| Page := 2; PerPage := 10 |}
           (Fixtures.world Fixtures.broken) 25 None Fixtures.broken [] (Some "connection lost")
           (windowed {| Page := 2; PerPage := 10 |} Fixtures.broken));
    vm_compute; reflexivity.
Defined.

Lemma GetPageMapped_frame_witness :
  exists l' w',
    GetPageMapped (Err := string)
      (Fixtures.context "" (gin.Int 2) (gin.Int 10)) tt
      {| Page := 2; PerPage := 10 |} (fun row i => (row, i))
      (Fixtures.world (Fixtures.table 25)) = (Ok l', w') /\
    exists l,
      Fixtures.run "" (Fixtures.table 25) 2 10 = (Ok l, w') /\
      Total l' = Total l /\ PerPage' l' = PerPage' l /\
      CurrentPage l' = CurrentPage l /\ LastPage l' = LastPage l /\
      FirstPageUrl l' = FirstPageUrl l /\ LastPageUrl l' = LastPageUrl l /\
      NextPageUrl l' = NextPageUrl l /\ PrevPageUrl l' = PrevPageUrl l /\
      Path l' = Path l /\ From l' = From l /\ To l' = To l /\
      List.length (Data l') = List.length (Data l) /\
      (forall (i : nat) (row : Z),
         Data l !! i = Some row -> Data l' !! i = Some (row, Z.of_nat i)).
Proof.
  eexists _, _. split; [vm_compute; reflexivity|].
  eapply (GetPageMapped_frame
           (Fixtures.context "" (gin.Int 2) (gin.Int 10)) tt
           {| Page := 2; PerPage := 10 |} (fun row i => (row, i))
           (Fixtures.world (Fixtures.table 25))).
  vm_compute. reflexivity.
Defined.

Lemma GetPage_division_witness :
  (exists r w',
     Fixtures.run "" (Fixtures.table 25) 2 10 = (r, w') /\
     1 <= 10 <= GoInt.max_int /\
     (forall s, GoFloat.of_int 10 <> S754_zero s) /\
     divideByZero w' = false) /\
  (exists l w',
     Fixtures.run "" (Fixtures.table 5) 3 0 = (Ok l, w') /\
     0 < Total l <= GoInt.max_int /\
     GoFloat.div (GoFloat.of_int (Total l)) (GoFloat.of_int 0) = S754_infinity false /\
     divideByZero w' = true).
Proof.
  split.
  - eexists _, _. split; [vm_compute; reflexivity|].
    assert (1 <= 10 <= GoInt.max_int) as Hper by (vm_compute; split; congruence).
    split; [exact Hper|].
    destruct (GetPage_division
                (Fixtures.context "" (gin.Int 2) (gin.Int 10)) tt
                {| Page := 2; PerPage := 10 |}
                (Fixtures.world (Fixtures.table 25)) _ _ (surjective_pairing _))
      as [HA _].
    destruct (HA Hper) as (Hnz & Hflag & _).
    split; [exact Hnz | exact Hflag].
  - eexists _, _. split; [vm_compute; reflexivity|].
    assert (0 < 5 <= GoInt.max_int) as Htotal by (vm_compute; split; congruence).
    split; [exact Htotal|].
    destruct (GetPage_division
                (Fixtures.context "" (gin.Int 3) (gin.Int 0)) tt
                {| Page := 3; PerPage := 0 |}
                (Fixtures.world (Fixtures.table 5)) _ _ (surjective_pairing _))
      as [_ HB].
    exact (HB eq_refl _ eq_refl Htotal).
Defined.

Lemma GetPaginationParamsWithDefault_resolves_witness :
  1 <= 1 /\ 1 <= 10 /\
  GetPaginationParamsWithDefault (Fixtures.context "page=3" (gin.Int 3) gin.Absent) 1 10
  = {| Page := 3; PerPage := 10 |} /\
  1 <= Page (GetPaginationParamsWithDefault (Fixtures.context "page=3" (gin.Int 3) gin.Absent) 1 10) /\
  1 <= PerPage (GetPaginationParamsWithDefault (Fixtures.context "page=3" (gin.Int 3) gin.Absent) 1 10) /\
  (replaced (gin.Int 3) ->
   Page (GetPaginationParamsWithDefault (Fixtures.context "page=3" (gin.Int 3) gin.Absent) 1 10) = 1) /\
  (replaced gin.Absent ->
   PerPage (GetPaginationParamsWithDefault (Fixtures.context "page=3" (gin.Int 3) gin.Absent) 1 10) = 10) /\
  ((ShouldBind (Fixtures.context "page=3" (gin.Int 3) gin.Absent) {| Page := 0; PerPage := 0 |}).2 = true
   <-> bind_fails (Fixtures.context "page=3" (gin.Int 3) gin.Absent)) /\
  (bind_fails (Fixtures.context "page=3" (gin.Int 3) gin.Absent) ->
   GetPaginationParamsWithDefault (Fixtures.context "page=3" (gin.Int 3) gin.Absent) 1 10
   = {| Page := 1; PerPage := 10 |}) /\
  (~ bind_fails (Fixtures.context "page=3" (gin.Int 3) gin.Absent) ->
   (forall page, gin.Int 3 = gin.Int page -> 1 <= page ->
      Page (GetPaginationParamsWithDefault (Fixtures.context "page=3" (gin.Int 3) gin.Absent) 1 10) = page) /\
   (forall per_page, gin.Absent = gin.Int per_page -> 1 <= per_page ->
      PerPage (GetPaginationParamsWithDefault (Fixtures.context "page=3" (gin.Int 3) gin.Absent) 1 10) = per_page)) /\
  (forall page per_page,
     gin.form_error (Fixtures.context "page=3" (gin.Int 3) gin.Absent) = false ->
     gin.Int 3 = gin.Int page -> gin.Absent = gin.Int per_page ->
     1 <= page -> 1 <= per_page ->
     GetPaginationParamsWithDefault (Fixtures.context "page=3" (gin.Int 3) gin.Absent) 1 10
     = {| Page := page; PerPage := per_page |}).
Proof.
  split; [lia|]. split; [lia|]. split; [reflexivity|].
  apply (GetPaginationParamsWithDefault_resolves (Fixtures.context "page=3" (gin.Int 3) gin.Absent) 1 10); lia.
Defined.

Lemma GetPaginationParamsWithDefault_bind_error_witness :
  (gin.Int 5 = gin.Malformed \/ gin.Malformed = gin.Malformed) /\
  GetPaginationParamsWithDefault (Fixtures.context "" (gin.Int 5) gin.Malformed) 1 10
  = {| Page := 1; PerPage := 10 |}.
Proof.
  split; [right; reflexivity|].
  apply (GetPaginationParamsWithDefault_bind_error
           (Fixtures.context "" (gin.Int 5) gin.Malformed) 1 10).
  right. reflexivity.
Defined.


Lemma NewPageUrl_extends_GetRequestBase_witness :
  url.Fragment (http.URL Fixtures.request_forced) = "" /\
  url.String_ (GetRequestBase Fixtures.request_forced) = "http://example.com/items?" /\
  url.String_ (NewPageUrl Fixtures.request_forced 2 10)
  = "http://example.com/items?page=2&per_page=10" /\
  url.String_ (NewPageUrl Fixtures.request_forced 2 10)
  = url.String_ (GetRequestBase Fixtures.request_forced)
    +:+ (let raw_query :=
           url.Encode (SetPageQuery (CopyRequestUrl Fixtures.request_forced) 2 10) in
         if url.ForceQuery (http.URL Fixtures.request_forced) then raw_query
         else if url.nonempty raw_query then "?" +:+ raw_query else "").
Proof.
  split; [reflexivity|]. split; [vm_compute; reflexivity|].
  split; [vm_compute; reflexivity|].
  apply (NewPageUrl_extends_GetRequestBase Fixtures.request_forced 2 10).
  reflexivity.
Defined.

Lemma NewPageUrl_same_but_page_witness :
  http.TLS (Fixtures.request "page=7&q=a") = http.TLS (Fixtures.request_absolute "q=a") /\
  http.Host (Fixtures.request "page=7&q=a") = http.Host (Fixtures.request_absolute "q=a") /\
  kept_fields (http.URL (Fixtures.request "page=7&q=a"))
  = kept_fields (http.URL (Fixtures.request_absolute "q=a")) /\
  same_but_page (Fixtures.request "page=7&q=a") (Fixtures.request_absolute "q=a") /\
  NewPageUrl (Fixtures.request "page=7&q=a") 2 10
  = NewPageUrl (Fixtures.request_absolute "q=a") 2 10.
Proof.
  assert (same_but_page (Fixtures.request "page=7&q=a") (Fixtures.request_absolute "q=a"))
    as Hsame.
  { intros key Hpage _.
    replace (url.Query (http.URL (Fixtures.request "page=7&q=a")))
      with (<[ParamPage := ["7"]]> (url.Query (http.URL (Fixtures.request_absolute "q=a"))))
      by (vm_compute; reflexivity).
    apply lookup_insert_ne. congruence. }
  do 3 (split; [reflexivity|]). split; [exact Hsame|].
  apply (NewPageUrl_same_but_page
           (Fixtures.request "page=7&q=a") (Fixtures.request_absolute "q=a") 2 10);
    first [reflexivity | exact Hsame].
Defined.


Lemma GetPage_calls_witness :
  exists r w',
    Count tt (Fixtures.table 25) = (25, None, Fixtures.table 25) /\
    Fixtures.run "" (Fixtures.table 25) 2 10 = (r, w') /\
    calls w' = [] ++ [CallCount; CallOffset 10; CallLimit 10; CallAll] /\
    (CallAll ∈ call_log (Err := string) {| Page := 2; PerPage := 10 |} 25 None
     <-> @None string = None /\ 25 <> 0) /\
    (forall l, r = Ok l -> Total l <> 0 ->
       exists o,
         call_log (Err := string) {| Page := 2; PerPage := 10 |} 25 None
         = [CallCount; CallOffset o; CallLimit (PerPage' l); CallAll] /\
         From l = GoInt.add o 1).
Proof.
  eexists _, _. split; [reflexivity|]. split; [vm_compute; reflexivity|].
  eapply (GetPage_calls
            (Fixtures.context "" (gin.Int 2) (gin.Int 10)) tt
            {| Page := 2; PerPage := 10 |}
            (Fixtures.world (Fixtures.table 25)) _ _ 25 None (Fixtures.table 25));
    vm_compute; reflexivity.
Defined.

Lemma GetPage_rows_window_witness :
  1 <= 2 /\ 1 <= 10 /\ 0 < Z.of_nat (List.length (Fixtures.rows 25)) < 2 ^ 53 /\
  2 * 10 <= GoInt.max_int /\
  Count tt (Fixtures.table 25)
  = (Z.of_nat (List.length (Fixtures.rows 25)), None, Fixtures.table 25) /\
  All tt (Limit 10 (Offset ((2 - 1) * 10) (Fixtures.table 25)))
  = (page_rows {| Page := 2; PerPage := 10 |} (Fixtures.rows 25), None,
     Limit 10 (Offset ((2 - 1) * 10) (Fixtures.table 25))) /\
  exists l w',
    Fixtures.run "" (Fixtures.table 25) 2 10 = (Ok l, w') /\
    Data l = [11; 12; 13; 14; 15; 16; 17; 18; 19; 20] /\
    Z.of_nat (List.length (Data l)) = Z.max 0 (To l - From l + 1) /\
    (forall (i : nat) (row : Z),
       Data l !! i = Some row <->
       Fixtures.rows 25 !! (Z.to_nat (From l - 1) + i)%nat = Some row /\
       From l + Z.of_nat i <= To l).
Proof.
  split; [lia|]. split; [lia|]. split; [vm_compute; split; reflexivity|].
  split; [vm_compute; congruence|]. split; [vm_compute; reflexivity|].
  split; [vm_compute; reflexivity|].
  destruct (GetPage_rows_window
              (Fixtures.context "" (gin.Int 2) (gin.Int 10)) tt
              {| Page := 2; PerPage := 10 |}
              (Fixtures.world (Fixtures.table 25)) (Fixtures.rows 25)
              (Fixtures.table 25)
              (Limit 10 (Offset ((2 - 1) * 10) (Fixtures.table 25))))
    as (l & w' & HG & HD & Hlen & Hrows);
    try (vm_compute; first [reflexivity | congruence | split; reflexivity]).
  exists l, w'. split; [exact HG|]. split; [rewrite HD; vm_compute; reflexivity|].
  split; [exact Hlen|exact Hrows].
Defined.

Lemma GetPage_pages_cover_witness :
  exists l w',
    Fixtures.run "" (Fixtures.table 25) 2 10 = (Ok l, w') /\
    Total l = Z.of_nat (List.length (Fixtures.rows 25)) /\
    0 < Total l < 2 ^ 53 /\ 1 <= 10 <= GoInt.max_int /\
    pages_rows 10 (Fixtures.rows 25) (Z.to_nat (LastPage l)) = Fixtures.rows 25 /\
    page_rows {| Page := LastPage l; PerPage := 10 |} (Fixtures.rows 25) <> [] /\
    (forall n : nat, (n < Z.to_nat (LastPage l))%nat ->
       pages_rows 10 (Fixtures.rows 25) n <> Fixtures.rows 25).
Proof.
  eexists _, _. split; [vm_compute; reflexivity|].
  split; [vm_compute; reflexivity|].
  split; [vm_compute; split; reflexivity|].
  split; [vm_compute; split; congruence|].
  apply (GetPage_pages_cover
           (Fixtures.context "" (gin.Int 2) (gin.Int 10)) tt
           {| Page := 2; PerPage := 10 |}
           (Fixtures.world (Fixtures.table 25)) _
           (Fixtures.run "" (Fixtures.table 25) 2 10).2);
    vm_compute; try split; congruence.
Defined.

Lemma GetPage_page_sizes_witness :
  exists l w',
    Fixtures.run "" (Fixtures.table 25) 3 10 = (Ok l, w') /\
    1 <= 3 /\ 1 <= 10 /\ 0 < Total l < 2 ^ 53 /\ 3 * 10 <= GoInt.max_int /\
    (3 < LastPage l -> To l - From l + 1 = 10) /\
    (3 = LastPage l -> To l = Total l /\ 1 <= To l - From l + 1 <= 10) /\
    (LastPage l < 3 -> To l = Total l /\ To l < From l).
Proof.
  eexists _, _. split; [vm_compute; reflexivity|].
  split; [lia|]. split; [lia|]. split; [vm_compute; split; reflexivity|].
  split; [vm_compute; congruence|].
  apply (GetPage_page_sizes
           (Fixtures.context "" (gin.Int 3) (gin.Int 10)) tt
           {| Page := 3; PerPage := 10 |}
           (Fixtures.world (Fixtures.table 25)) _
           (Fixtures.run "" (Fixtures.table 25) 3 10).2);
    vm_compute; try split; congruence.
Defined.

Lemma GetPage_first_last_links_witness :
  exists l w',
    Fixtures.run "" (Fixtures.table 25) 2 10 = (Ok l, w') /\
    FirstPageUrl l <> "" /\
    encodes_page (Fixtures.request "") 1 10 (FirstPageUrl l) /\
    (LastPageUrl l = "" <-> LastPage l = 1) /\
    (1 < LastPage l -> encodes_page (Fixtures.request "") (LastPage l) 10 (LastPageUrl l)) /\
    (0 < Total l < 2 ^ 53 -> 1 <= 10 <= GoInt.max_int ->
     (LastPageUrl l = "" <-> Total l <= 10)).
Proof.
  eexists _, _. split; [vm_compute; reflexivity|].
  eapply (GetPage_first_last_links
            (Fixtures.context "" (gin.Int 2) (gin.Int 10)) tt
            {| Page := 2; PerPage := 10 |}
            (Fixtures.world (Fixtures.table 25))).
  vm_compute. reflexivity.
Defined.

Lemma GetPage_adjacent_links_witness :
  exists l w',
    Fixtures.run "" (Fixtures.table 25) 2 10 = (Ok l, w') /\
    Total l <> 0 /\
    (2 = 2 -> PrevPageUrl l = FirstPageUrl l) /\
    (2 + 1 = LastPage l -> 1 < LastPage l -> NextPageUrl l = LastPageUrl l).
Proof.
  eexists _, _. split; [vm_compute; reflexivity|].
  split; [vm_compute; congruence|].
  apply (GetPage_adjacent_links
           (Fixtures.context "" (gin.Int 2) (gin.Int 10)) tt
           {| Page := 2; PerPage := 10 |}
           (Fixtures.world (Fixtures.table 25)) _
           (Fixtures.run "" (Fixtures.table 25) 2 10).2);
    vm_compute; congruence.
Defined.

Lemma Rev1_GetPage_links_extend_Path_witness :
  exists l w',
    Rev1.GetPage (Err := string) (Fixtures.context_forced (gin.Int 2) (gin.Int 10)) tt
      {| Page := 2; PerPage := 10 |} (Fixtures.world (Fixtures.table 25)) = (Ok l, w') /\
    url.Fragment (http.URL Fixtures.request_forced) = "" /\
    Path l = "http://example.com/items?" /\
    NextPageUrl l = "http://example.com/items?page=3&per_page=10" /\
    Path l = url.String_ (GetRequestBase Fixtures.request_forced) /\
    forall link,
      link ∈ [FirstPageUrl l; LastPageUrl l; NextPageUrl l; PrevPageUrl l] ->
      link = "" \/
      extends_path (url.ForceQuery (http.URL Fixtures.request_forced)) (Path l) link.
Proof.
  eexists _, _. split; [vm_compute; reflexivity|].
  split; [reflexivity|]. split; [reflexivity|]. split; [reflexivity|].
  eapply (Rev1_GetPage_links_extend_Path
            (Fixtures.context_forced (gin.Int 2) (gin.Int 10)) tt
            {| Page := 2; PerPage := 10 |}
            (Fixtures.world (Fixtures.table 25)));
    [vm_compute; reflexivity | reflexivity].
Defined.

Lemma GetPage_negative_per_page_witness :
  exists l w',
    Fixtures.run "" (Fixtures.table 25) 2 (-10) = (Ok l, w') /\
    0 < Total l < 2 ^ 53 /\ GoInt.min_int <= -10 < 0 /\
    LastPage l = 1 /\ LastPageUrl l = "" /\
    (1 <= 2 < GoInt.max_int -> NextPageUrl l = "").
Proof.
  eexists _, _. split; [vm_compute; reflexivity|].
  split; [vm_compute; split; reflexivity|].
  split; [vm_compute; split; congruence|].
  apply (GetPage_negative_per_page
           (Fixtures.context "" (gin.Int 2) (gin.Int (-10))) tt
           {| Page := 2; PerPage := -10 |}
           (Fixtures.world (Fixtures.table 25)) _
           (Fixtures.run "" (Fixtures.table 25) 2 (-10)).2);
    vm_compute; try split; congruence.
Defined.

Lemma LastPage_exact_witness :
  exists l w',
    Fixtures.run "" (Fixtures.table 25) 2 10 = (Ok l, w') /\
    0 <= Total l < 2 ^ 53 /\ 1 <= 10 <= GoInt.max_int /\
    LastPage l = Z.max 1 (ceil_div (Total l) 10) /\ LastPage l = 3.
Proof.
  eexists _, _. split; [vm_compute; reflexivity|].
  split; [vm_compute; split; congruence|].
  split; [vm_compute; split; congruence|].
  split; [|reflexivity].
  apply (LastPage_exact
           (Fixtures.context "" (gin.Int 2) (gin.Int 10)) tt
           {| Page := 2; PerPage := 10 |}
           (Fixtures.world (Fixtures.table 25)) _
           (Fixtures.run "" (Fixtures.table 25) 2 10).2);
    vm_compute; try split; congruence.
Defined.

Lemma NextPageUrl_iff_below_max_int_witness :
  exists l w',
    Fixtures.run "" (Fixtures.table 25) 2 10 = (Ok l, w') /\
    0 < Total l /\ GoInt.min_int <= 2 < GoInt.max_int /\
    (NextPageUrl l = "" <-> LastPage l <= 2) /\
    (2 < LastPage l -> encodes_page (Fixtures.request "") (2 + 1) 10 (NextPageUrl l)).
Proof.
  eexists _, _. split; [vm_compute; reflexivity|].
  split; [vm_compute; reflexivity|].
  split; [vm_compute; split; congruence|].
  apply (NextPageUrl_iff_below_max_int
           (Fixtures.context "" (gin.Int 2) (gin.Int 10)) tt
           {| Page := 2; PerPage := 10 |}
           (Fixtures.world (Fixtures.table 25)) _
           (Fixtures.run "" (Fixtures.table 25) 2 10).2);
    vm_compute; try split; congruence.
Defined.

Lemma From_le_To_iff_within_last_page_witness :
  exists l w',
    Fixtures.run "" (Fixtures.table 5) 3 10 = (Ok l, w') /\
    1 <= 3 /\ 1 <= 10 /\ 0 < Total l < 2 ^ 53 /\ 3 * 10 <= GoInt.max_int /\
    (From l <= To l <-> CurrentPage l <= LastPage l).
Proof.
  eexists _, _. split; [vm_compute; reflexivity|].
  split; [lia|]. split; [lia|]. split; [vm_compute; split; reflexivity|].
  split; [vm_compute; congruence|].
  apply (From_le_To_iff_within_last_page
           (Fixtures.context "" (gin.Int 3) (gin.Int 10)) tt
           {| Page := 3; PerPage := 10 |}
           (Fixtures.world (Fixtures.table 5)) _
           (Fixtures.run "" (Fixtures.table 5) 3 10).2);
    vm_compute; try split; congruence.
Defined.

Lemma GetPage_of_GetPaginationParams_witness :
  exists l w',
    GetPage (Err := string) (Fixtures.context "" (gin.Int 0) gin.Absent) tt
      (GetPaginationParams (Fixtures.context "" (gin.Int 0) gin.Absent))
      (Fixtures.world (Fixtures.table 25)) = (Ok l, w') /\
    Page (GetPaginationParams (Fixtures.context "" (gin.Int 0) gin.Absent)) <= GoInt.max_int /\
    1 <= CurrentPage l /\ 1 <= PerPage' l /\ 1 <= LastPage l /\
    FirstPageUrl l <> "" /\
    (PrevPageUrl l = "" <-> CurrentPage l = 1).
Proof.
  eexists _, _. split; [vm_compute; reflexivity|].
  split; [vm_compute; congruence|].
  eapply (GetPage_of_GetPaginationParams
            (Fixtures.context "" (gin.Int 0) gin.Absent) tt
            (Fixtures.world (Fixtures.table 25)));
    vm_compute; first [reflexivity | congruence].
Defined.

Lemma GetPage_zero_per_page_witness :
  exists l w',
    Fixtures.run "" (Fixtures.table 5) 3 0 = (Ok l, w') /\
    0 = 0 /\ 0 < Total l <= GoInt.max_int /\
    From l = 1 /\ To l = 0 /\
    LastPage l = Z.max 1 (GoInt.wrap (GoFloat.unrepresentable (S754_infinity false))).
Proof.
  eexists _, _. split; [vm_compute; reflexivity|].
  split; [reflexivity|].
  split; [vm_compute; split; congruence|].
  apply (GetPage_zero_per_page
           (Fixtures.context "" (gin.Int 3) (gin.Int 0)) tt
           {| Page := 3; PerPage := 0 |}
           (Fixtures.world (Fixtures.table 5)) _
           (Fixtures.run "" (Fixtures.table 5) 3 0).2);
    vm_compute; try split; congruence.
Defined.

End Witnesses.
